(** * Cubify: ranking percentiles and head-to-head point tallies

    A shallow embedding of the computational core of the two pages of
    [src/app/page.tsx]:

    - the analyzer page ([CubifyAnalyzer]): [calculateStats], the guarded
      call sites of [fetchStats] that fill the region slots of an
      [EventStats], the percentile labels of the render tree, and the
      payload transformation of [fetchStats];
    - the comparison page ([ComparePage]): [fetchPlayerData],
      [getAllEvents], [getBetterRank] and [calculatePoints].

    Number model.  Ranks, leaderboard totals and point counters are
    integers.  The quotients computed from them are modelled as exact
    rationals ([Q]); statements about them use the rational order and the
    rational equality [==].  [Math.max] and [Math.min] are [Qmax] and
    [Qmin].  A JSON field that may be missing is an [option]; JavaScript
    truthiness is written out where the source branches on it. *)

(** Also embedded, for the properties in the second half of the file:
    [formatTime] (both pages), the [eventStats] and [allEventsData] that
    [fetchStats] builds from the six leaderboard responses of an event,
    and, of the comparison page's render tree, the rows of the event table
    ([tableRows]), the verdict under a tally ([verdict]) and the first name
    of a winner cell ([firstName]).  Event ids and country codes are taken
    to be ASCII and not to be names of [Object.prototype] properties.
    Since the source rounds its quotients to doubles, the statements about
    them are about order, thresholds and the guard, not about the exact
    value of a quotient or the last printed digit of a percentage. *)

From Stdlib Require Import ZArith QArith Qminmax Qround Qabs Lqa Lia.
From Stdlib Require Import String Ascii List DecimalString.
From stdpp Require Import gmap strings list sorting.

Local Open Scope Z_scope.

(** ** Shared data model *)

(** [{ best, world_ranking, continental_ranking, national_ranking }].  The
    interface types the rankings as [number], but they are copied from an
    untyped payload ([record.rank.world] of an [any]), so each may be
    [undefined]. *)
Record RankInfo := mkRankInfo {
  best : Z;
  world_ranking : option Z;
  continental_ranking : option Z;
  national_ranking : option Z
}.

(** One entry of [personal_records]: [{ single?, average? }]. *)
Record PersonalRecord := mkPersonalRecord {
  single : option RankInfo;
  average : option RankInfo
}.

Record Country := mkCountry {
  country_name : option string;
  iso2 : string
}.

(** [interface PlayerInfo].  [personal_records] is a JavaScript object used
    as a dictionary from event id to record. *)
Record PlayerInfo := mkPlayerInfo {
  name : string;
  country : Country;
  continent : option string;
  wca_id : option string;
  avatar : option string;
  personal_records : gmap string PersonalRecord
}.

(** [interface RegionStats]. *)
Record RegionStats := mkRegionStats {
  totalCompetitors : Z;
  percentile : Q;
  percentDownList : Q
}.

(** JavaScript truthiness of an optional number: [undefined] and [0] are
    falsy. *)
Definition truthy (n : option Z) : bool :=
  match n with
  | Some v => negb (v =? 0)
  | None => false
  end.

(** Truthiness of an optional string: [undefined] and the empty string are
    falsy. *)
Definition truthy_string (s : option string) : bool :=
  match s with
  | Some EmptyString => false
  | Some _ => true
  | None => false
  end.

(** ** The raw competitor payload

    [await playerResponse.json()]: an untyped object.  Only the fields the
    two pages read are kept; every field that the source tests for
    presence is optional. *)

(** [record.rank] of one entry of [rank.singles] or [rank.averages]. *)
Record RawRanks := mkRawRanks {
  world : option Z;
  raw_continent : option Z;
  raw_country : option Z
}.

(** One entry of [rank.singles] or [rank.averages]. *)
Record RawRecord := mkRawRecord {
  eventId : string;
  raw_best : Z;
  raw_rank : RawRanks
}.

(** [player.rank]. *)
Record RawRank := mkRawRank {
  singles : option (list RawRecord);
  averages : option (list RawRecord)
}.

Record RawPlayer := mkRawPlayer {
  player_name : option string;
  player_country : option string;
  player_countryIso2 : option string;
  player_continent : option string;
  player_id : option string;
  player_rank : option RawRank
}.

(** The messages of the [Error]s the two fetch functions throw on a parsed
    payload. *)
Inductive FetchError :=
  | InvalidPlayerData   (* "Invalid player data received ..." *)
  | NoRecordsFound.     (* "No competition records found for this player." *)

(** ASCII [toLowerCase]. *)
Definition lower_ascii (c : ascii) : ascii :=
  let n := nat_of_ascii c in
  if ((65 <=? n) && (n <=? 90))%nat then ascii_of_nat (n + 32) else c.

Fixpoint toLowerCase (s : string) : string :=
  match s with
  | EmptyString => EmptyString
  | String c r => String (lower_ascii c) (toLowerCase r)
  end.

(** [player.country || player.countryIso2 || "XX"]. *)
Definition countryIso (player : RawPlayer) : string :=
  if truthy_string (player_country player)
  then default "XX"%string (player_country player)
  else if truthy_string (player_countryIso2 player)
  then default "XX"%string (player_countryIso2 player)
  else "XX"%string.

(** The object literal built from one raw entry. *)
Definition rankInfo (record : RawRecord) : RankInfo :=
  {| best := raw_best record;
     world_ranking := world (raw_rank record);
     continental_ranking := raw_continent (raw_rank record);
     national_ranking := raw_country (raw_rank record) |}.

(** The body of [player.rank.singles.forEach]: create the entry when it is
    missing, then assign its [single]. *)
Definition addSingle (records : gmap string PersonalRecord) (record : RawRecord)
  : gmap string PersonalRecord :=
  let entry := default (mkPersonalRecord None None) (records !! eventId record) in
  <[eventId record := mkPersonalRecord (Some (rankInfo record)) (average entry)]>
    records.

(** The body of [player.rank.averages.forEach]. *)
Definition addAverage (records : gmap string PersonalRecord) (record : RawRecord)
  : gmap string PersonalRecord :=
  let entry := default (mkPersonalRecord None None) (records !! eventId record) in
  <[eventId record := mkPersonalRecord (single entry) (Some (rankInfo record))]>
    records.

(** Lines 178-208 and, word for word, 857-887: the records collected from
    [player.rank].  An array, also an empty one, is truthy. *)
Definition collectRecords (player : RawPlayer) : gmap string PersonalRecord :=
  match player_rank player with
  | Some rank =>
      if bool_decide (is_Some (singles rank)) || bool_decide (is_Some (averages rank))
      then
        let records := foldl addSingle ∅ (default [] (singles rank)) in
        foldl addAverage records (default [] (averages rank))
      else ∅
  | None => ∅
  end.

(** Lines 161-176 and 843-855: the [transformedPlayer] literal, with the
    records filled in. *)
Definition transformedPlayer (player : RawPlayer) (avatarUrl : option string)
  : PlayerInfo :=
  {| name := default ""%string (player_name player);
     country := {| country_name := player_country player;
                   iso2 := toLowerCase (countryIso player) |};
     continent := player_continent player;
     wca_id := player_id player;
     avatar := if truthy_string avatarUrl then avatarUrl else None;
     personal_records := collectRecords player |}.

(** [Object.keys(o)] as a list; its order is that of the map's
    enumeration, and no definition below depends on it. *)
Definition keys (records : gmap string PersonalRecord) : list string :=
  (map_to_list records).*1.

(** ** The analyzer page *)

Module Analyzer.

(** [calculateStats] (lines 106-114).  The division is exact; the source
    only calls the function with [totalCompetitors > 0]. *)
Definition calculateStats (rank totalCompetitors : Z) : RegionStats :=
  let percentDownList := (inject_Z rank / inject_Z totalCompetitors * 100)%Q in
  let percentile :=
    ((1 - (inject_Z rank - 1) / inject_Z totalCompetitors) * 100)%Q in
  {| totalCompetitors := totalCompetitors;
     percentile := Qmax 0 (Qmin 100 percentile);
     percentDownList := percentDownList |}.

(** The initial value of every region slot of an [EventStats]
    (lines 301-303 and 311-313). *)
Definition placeholder : RegionStats :=
  {| totalCompetitors := 0; percentile := 0%Q; percentDownList := 0%Q |}.

(** What a region slot holds after lines 322-348: it starts as the
    placeholder and is overwritten by [calculateStats] only under
    [total > 0 && rank > 0]. *)
Definition computeStanding (rank totalCompetitors : Z) : RegionStats :=
  if (totalCompetitors >? 0) && (rank >? 0)
  then calculateStats rank totalCompetitors
  else placeholder.

(** Decimal digits of a non-negative integer. *)
Definition digits (n : Z) : string :=
  NilEmpty.string_of_uint (N.to_uint (Z.to_N n)).

(** [x.toFixed(1)]: the integer [n] with [n / 10] nearest to [|x|] (the
    larger one on a tie), printed with one digit after the point and a
    minus sign for negative [x].  (The exponent form used from [1e21] on is
    out of reach here.) *)
Definition toFixed1 (x : Q) : string :=
  let n := Qfloor (Qabs x * 10 + (1 # 2))%Q in
  ((if Qle_bool 0 x then "" else "-")
   +:+ digits (n / 10) +:+ "." +:+ digits (n mod 10))%string.

(** The label next to [NR:] (lines 584-604 for singles, 660-680 for
    averages).  [None] is "nothing rendered".  The source tests
    [rank.nr > 0] twice, once around the row and once inside it. *)
Definition labelNational (rank : Z) (percentile : Q) : option string :=
  if rank >? 0 then
    if rank >? 0 then
      if Qle_bool (999 # 10) percentile then Some "Top 0.1%"%string
      else if Qle_bool 99 percentile then Some "Top 1%"%string
      else
        let displayPercentage := toFixed1 (100 - percentile)%Q in
        Some ("Top " +:+ displayPercentage +:+ "%")%string
    else None
  else None.

(** The label next to [CR:] (lines 605-625 and 681-701). *)
Definition labelContinental (rank : Z) (percentile : Q) : option string :=
  if rank >? 0 then
    if Qle_bool (999 # 10) percentile then Some "Top 0.1%"%string
    else if Qle_bool 99 percentile then Some "Top 1%"%string
    else if negb (Qle_bool percentile 0) then
      Some ("Top " +:+ toFixed1 (100 - percentile)%Q +:+ "%")%string
    else Some "Ranked"%string
  else None.

(** The label next to [WR:] (lines 626-646 and 702-722). *)
Definition labelWorld (rank : Z) (percentile : Q) : option string :=
  if rank >? 0 then
    if Qle_bool (999 # 10) percentile then Some "Top 0.1%"%string
    else if Qle_bool 99 percentile then Some "Top 1%"%string
    else if negb (Qle_bool percentile 0) then
      Some ("Top " +:+ toFixed1 (100 - percentile)%Q +:+ "%")%string
    else Some "Ranked"%string
  else None.

(** [fetchStats] from the parsed payload (line 138) up to
    [setPlayerInfo(transformedPlayer)] (line 214): the player shown, or the
    error thrown.  [player] is [None] for a [null] payload. *)
Definition fetchStats (player : option RawPlayer) (avatarUrl : option string)
  : FetchError + PlayerInfo :=
  match player with
  | None => inl InvalidPlayerData
  | Some player =>
      if negb (truthy_string (player_name player)) then inl InvalidPlayerData
      else
        let transformed := transformedPlayer player avatarUrl in
        if (length (keys (personal_records transformed)) =? 0)%nat
        then inl NoRecordsFound
        else inr transformed
  end.

(** [s.padStart(targetLength, "0")]. *)
Fixpoint zeros (k : nat) : string :=
  match k with
  | O => EmptyString
  | S k => String "0" (zeros k)
  end.

Definition padStart0 (targetLength : nat) (s : string) : string :=
  (zeros (targetLength - String.length s) +:+ s)%string.

(** [x.toFixed(2)], as [toFixed1] with two digits after the point: the
    digits of the nearest integer number of hundredths, padded to three,
    with the point before the last two. *)
Definition toFixed2 (x : Q) : string :=
  let n := Qfloor (Qabs x * 100 + (1 # 2))%Q in
  ((if Qle_bool 0 x then "" else "-")
   +:+ digits (n / 100) +:+ "." +:+ padStart0 2 (digits (n mod 100)))%string.

(** The integer part of a number, rounding towards zero. *)
Definition truncate (x : Q) : Z :=
  if Qle_bool 0 x then Qfloor x else Qceiling x.

(** [x % y] on numbers: the remainder takes the sign of [x]. *)
Definition remainder (x y : Q) : Q :=
  (x - y * inject_Z (truncate (x / y)))%Q.

(** [formatTime] (lines 375-380; the comparison page has the same text at
    lines 934-939). *)
Definition formatTime (centiseconds : Z) : string :=
  let seconds := (inject_Z centiseconds / 100)%Q in
  if negb (Qle_bool 60 seconds)
  then (toFixed2 seconds +:+ "s")%string
  else (digits (Qfloor (seconds / 60)) +:+ ":"
        +:+ padStart0 5 (toFixed2 (remainder seconds 60)))%string.

(** A leaderboard response: [None] when [response.ok] is false, otherwise
    the [total] field of its JSON body, which may be missing. *)
Definition Response : Type := option (option Z).

(** [let total = 0; if (response.ok) total = data.total || 0]
    (lines 261-297). *)
Definition totalOf (response : Response) : Z :=
  match response with
  | Some (Some total) => total
  | _ => 0
  end.

(** The six responses awaited for one event (lines 223-249). *)
Record Responses := mkResponses {
  worldSingleResponse : Response;
  worldAverageResponse : Response;
  continentalSingleResponse : Response;
  continentalAverageResponse : Response;
  nationalSingleResponse : Response;
  nationalAverageResponse : Response
}.

(** [rank: { nr, cr, wr }]. *)
Record RegionRanks := mkRegionRanks {
  rank_nr : Z;
  rank_cr : Z;
  rank_wr : Z
}.

(** One half of [interface EventStats]. *)
Record DisciplineStats := mkDisciplineStats {
  nr : RegionStats;
  cr : RegionStats;
  wr : RegionStats;
  rank : RegionRanks
}.

(** [interface EventStats]; the fields [single] and [average]. *)
Record EventStats := mkEventStats {
  single_stats : DisciplineStats;
  average_stats : DisciplineStats
}.

(** [eventRecord.single?.national_ranking || 0] and the like. *)
Definition rankOrZero (result : option RankInfo) (ranking : RankInfo → option Z)
  : Z :=
  match result ≫= ranking with
  | Some v => v
  | None => 0
  end.

(** The [eventStats] of one event (lines 261-348): every region slot is
    created as the placeholder literal and replaced by [calculateStats]
    under the test [total > 0 && rank > 0]. *)
Definition eventStats (eventRecord : PersonalRecord) (responses : Responses)
  : EventStats :=
  let worldSingleTotal := totalOf (worldSingleResponse responses) in
  let worldAverageTotal := totalOf (worldAverageResponse responses) in
  let continentalSingleTotal := totalOf (continentalSingleResponse responses) in
  let continentalAverageTotal := totalOf (continentalAverageResponse responses) in
  let nationalSingleTotal := totalOf (nationalSingleResponse responses) in
  let nationalAverageTotal := totalOf (nationalAverageResponse responses) in
  let zero := {| totalCompetitors := 0; percentile := 0%Q; percentDownList := 0%Q |} in
  let singleRank :=
    {| rank_nr := rankOrZero (single eventRecord) national_ranking;
       rank_cr := rankOrZero (single eventRecord) continental_ranking;
       rank_wr := rankOrZero (single eventRecord) world_ranking |} in
  let averageRank :=
    {| rank_nr := rankOrZero (average eventRecord) national_ranking;
       rank_cr := rankOrZero (average eventRecord) continental_ranking;
       rank_wr := rankOrZero (average eventRecord) world_ranking |} in
  {| single_stats :=
       {| wr := if (worldSingleTotal >? 0) && (rank_wr singleRank >? 0)
                then calculateStats (rank_wr singleRank) worldSingleTotal
                else zero;
          cr := if (continentalSingleTotal >? 0) && (rank_cr singleRank >? 0)
                then calculateStats (rank_cr singleRank) continentalSingleTotal
                else zero;
          nr := if (nationalSingleTotal >? 0) && (rank_nr singleRank >? 0)
                then calculateStats (rank_nr singleRank) nationalSingleTotal
                else zero;
          rank := singleRank |};
     average_stats :=
       {| wr := if (worldAverageTotal >? 0) && (rank_wr averageRank >? 0)
                then calculateStats (rank_wr averageRank) worldAverageTotal
                else zero;
          cr := if (continentalAverageTotal >? 0) && (rank_cr averageRank >? 0)
                then calculateStats (rank_cr averageRank) continentalAverageTotal
                else zero;
          nr := if (nationalAverageTotal >? 0) && (rank_nr averageRank >? 0)
                then calculateStats (rank_nr averageRank) nationalAverageTotal
                else zero;
          rank := averageRank |} |}.

(** [allEventsData] (lines 216-351): one [eventStats] per key of
    [personal_records]; [responses] gives the six responses fetched for an
    event id. *)
Definition allEventsData (records : gmap string PersonalRecord)
    (responses : string → Responses) : gmap string EventStats :=
  map_imap (λ eventId eventRecord,
              Some (eventStats eventRecord (responses eventId))) records.

End Analyzer.

(** ** The comparison page *)

Module ComparePage.

(** [fetchPlayerData] from the parsed payload (line 825) to its [return]
    (line 889). *)
Definition fetchPlayerData (player : option RawPlayer) (avatarUrl : option string)
  : FetchError + PlayerInfo :=
  match player with
  | None => inl InvalidPlayerData
  | Some player =>
      if negb (truthy_string (player_name player)) then inl InvalidPlayerData
      else inr (transformedPlayer player avatarUrl)
  end.

(** The default comparison of [Array.prototype.sort] on strings: code
    unit order, which on the ASCII event ids is the byte order of
    [String.leb]. *)
Definition code_unit_le (s t : string) : Prop := String.leb s t.

#[global] Instance code_unit_le_dec s t : Decision (code_unit_le s t).
Proof. unfold code_unit_le. apply _. Defined.

(** [getAllEvents] (lines 941-950): the keys of both players' records
    collected in a [Set], then sorted. *)
Definition getAllEvents (player1 player2 : option PlayerInfo) : list string :=
  let events : gset string := ∅ in
  let events :=
    match player1 with
    | Some p => events ∪ dom (personal_records p)
    | None => events
    end in
  let events :=
    match player2 with
    | Some p => events ∪ dom (personal_records p)
    | None => events
    end in
  merge_sort code_unit_le (elements events).

(** The three strings [getBetterRank] returns. *)
Inductive Winner := player1 | player2 | tie.

#[global] Instance Winner_eq_dec : EqDecision Winner.
Proof. solve_decision. Defined.

(** [getBetterRank] (lines 952-957). *)
Definition getBetterRank (rank1 rank2 : option Z) : Winner :=
  if negb (truthy rank1) && negb (truthy rank2) then tie
  else if negb (truthy rank1) then player2
  else if negb (truthy rank2) then player1
  else
    let r1 := default 0 rank1 in
    let r2 := default 0 rank2 in
    if r1 <? r2 then player1 else if r1 >? r2 then player2 else tie.

(** [{ player1, player2, events }].  The two totals are named [points1]
    and [points2] here: [player1] and [player2] are the comparator's
    results. *)
Record Tally := mkTally {
  points1 : nat;
  points2 : nat;
  events : list string
}.

(** The object [calculatePoints] returns. *)
Record Points := mkPoints {
  fair : Tally;
  unfair : Tally
}.

(** The six local variables of [calculatePoints]. *)
Record Counters := mkCounters {
  fairPoints1 : nat;
  fairPoints2 : nat;
  unfairPoints1 : nat;
  unfairPoints2 : nat;
  fairEvents : list string;
  unfairEvents : list string
}.

(** [if (w === "player1") p1++ else if (w === "player2") p2++]. *)
Definition award (w : Winner) (p : nat * nat) : nat * nat :=
  match w with
  | player1 => (S (fst p), snd p)
  | player2 => (fst p, S (snd p))
  | tie => p
  end.

(** The two guarded comparisons of an event both players hold (lines
    980-991, and again 1006-1016). *)
Definition compareBoth (event1 event2 : PersonalRecord) (p : nat * nat)
  : nat * nat :=
  let p :=
    match single event1, single event2 with
    | Some s1, Some s2 =>
        award (getBetterRank (world_ranking s1) (world_ranking s2)) p
    | _, _ => p
    end in
  match average event1, average event2 with
  | Some a1, Some a2 =>
      award (getBetterRank (world_ranking a1) (world_ranking a2)) p
  | _, _ => p
  end.

(** [if (e.single) n++; if (e.average) n++]. *)
Definition held (e : PersonalRecord) (n : nat) : nat :=
  let n := match single e with Some _ => S n | None => n end in
  match average e with Some _ => S n | None => n end.

(** The body of [allEvents.forEach] (lines 971-1018). *)
Definition visit (p1 p2 : PlayerInfo) (c : Counters) (eventId : string)
  : Counters :=
  let event1 := personal_records p1 !! eventId in
  let event2 := personal_records p2 !! eventId in
  let '(f, fairEvents) :=
    match event1, event2 with
    | Some e1, Some e2 =>
        (compareBoth e1 e2 (fairPoints1 c, fairPoints2 c),
         fairEvents c ++ [eventId])
    | _, _ => ((fairPoints1 c, fairPoints2 c), fairEvents c)
    end in
  let unfairEvents := unfairEvents c ++ [eventId] in
  let u :=
    match event1, event2 with
    | Some e1, None => (held e1 (unfairPoints1 c), unfairPoints2 c)
    | None, Some e2 => (unfairPoints1 c, held e2 (unfairPoints2 c))
    | Some e1, Some e2 => compareBoth e1 e2 (unfairPoints1 c, unfairPoints2 c)
    | None, None => (unfairPoints1 c, unfairPoints2 c)
    end in
  mkCounters (fst f) (snd f) (fst u) (snd u) fairEvents unfairEvents.

(** [calculatePoints] (lines 959-1024); the arguments are the page's
    [player1] and [player2] state, [None] for [null]. *)
Definition calculatePoints (player1 player2 : option PlayerInfo) : Points :=
  match player1, player2 with
  | Some p1, Some p2 =>
      let allEvents := getAllEvents player1 player2 in
      let c := foldl (visit p1 p2) (mkCounters 0 0 0 0 [] []) allEvents in
      {| fair := mkTally (fairPoints1 c) (fairPoints2 c) (fairEvents c);
         unfair := mkTally (unfairPoints1 c) (unfairPoints2 c) (unfairEvents c) |}
  | _, _ =>
      {| fair := mkTally 0 0 []; unfair := mkTally 0 0 [] |}
  end.

(** The verdict under a tally (lines 1229-1239 and 1277-1287): the side
    with more points wins, equal points are a tie game. *)
Definition verdict (t : Tally) : Winner :=
  if (points2 t <? points1 t)%nat then player1
  else if (points1 t <? points2 t)%nat then player2
  else tie.

(** [name.split(" ")[0]], the text of a winner cell (lines 1396-1398 and
    1450-1452). *)
Fixpoint firstName (name : string) : string :=
  match name with
  | EmptyString => EmptyString
  | String c rest =>
      if Ascii.eqb c " " then EmptyString else String c (firstName rest)
  end.

(** The [rows] built for one event of the comparison table (lines
    1348-1470), each reduced to its discipline and to the winner that
    colours it and fills its last cell.  A row is pushed when either side
    has the discipline; the comparator then also sees an absent side. *)
Definition tableRows (p1 p2 : PlayerInfo) (eventId : string)
  : list (string * Winner) :=
  let event1 := personal_records p1 !! eventId in
  let event2 := personal_records p2 !! eventId in
  let rows : list (string * Winner) := [] in
  let rows :=
    if bool_decide (is_Some (event1 ≫= single))
       || bool_decide (is_Some (event2 ≫= single))
    then
      let singleWinner :=
        getBetterRank ((event1 ≫= single) ≫= world_ranking)
                      ((event2 ≫= single) ≫= world_ranking) in
      rows ++ [("SINGLE"%string, singleWinner)]
    else rows in
  let rows :=
    if bool_decide (is_Some (event1 ≫= average))
       || bool_decide (is_Some (event2 ≫= average))
    then
      let averageWinner :=
        getBetterRank ((event1 ≫= average) ≫= world_ranking)
                      ((event2 ≫= average) ≫= world_ranking) in
      rows ++ [("AVERAGE"%string, averageWinner)]
    else rows in
  rows.

End ComparePage.

Import Analyzer ComparePage.

(** ** Definitions that follow the specification's wording *)

(** [clamp(x, lo, hi)]: [x] limited to the interval from [lo] to [hi]. *)
Definition clamp (x lo hi : Q) : Q :=
  if Qlt_le_dec x lo then lo
  else if Qlt_le_dec hi x then hi
  else x.

(** The unranked zero-value placeholder
    [{ totalCompetitors: 0, percentile: 0, percentDownList: 0 }]. *)
Definition unranked : RegionStats := mkRegionStats 0 0%Q 0%Q.

(** The usable event records of a payload: the entries of
    [rank.singles] and [rank.averages]. *)
Definition usableRecords (player : RawPlayer) : list RawRecord :=
  match player_rank player with
  | Some rank => default [] (singles rank) ++ default [] (averages rank)
  | None => []
  end.

(** [sharedEvents]: the event codes present in both records. *)
Definition sharedEvents (a b : PlayerInfo) : gset string :=
  dom (personal_records a) ∩ dom (personal_records b).

(** [allEvents]: the event codes present in either record. *)
Definition allEvents (a b : PlayerInfo) : gset string :=
  dom (personal_records a) ∪ dom (personal_records b).

(** One point for [w] in one discipline of an event: both sides have a
    result in it and [w] wins the comparison of the world ranks. *)
Definition disciplinePoint (w : Winner) (r1 r2 : option RankInfo) : nat :=
  match r1, r2 with
  | Some x, Some y =>
      if decide (getBetterRank (world_ranking x) (world_ranking y) = w)
      then 1 else 0
  | _, _ => 0
  end.

(** The per-discipline comparison of an event both competitors hold. *)
Definition comparisonPoints (w : Winner) (ea eb : PersonalRecord) : nat :=
  disciplinePoint w (single ea) (single eb)
  + disciplinePoint w (average ea) (average eb).

(** Fair tally, the points of side [w] for event [e]. *)
Definition fairAward (w : Winner) (a b : PlayerInfo) (e : string) : nat :=
  match personal_records a !! e, personal_records b !! e with
  | Some ea, Some eb => comparisonPoints w ea eb
  | _, _ => 0
  end.

(** One point per discipline the holder has a result in. *)
Definition presencePoints (e : PersonalRecord) : nat :=
  (match single e with Some _ => 1 | None => 0 end)
  + (match average e with Some _ => 1 | None => 0 end).

(** Unfair tally, the points of side [w] for event [e]. *)
Definition unfairAward (w : Winner) (a b : PlayerInfo) (e : string) : nat :=
  match personal_records a !! e, personal_records b !! e with
  | Some ea, Some eb => comparisonPoints w ea eb
  | Some ea, None => match w with player1 => presencePoints ea | _ => 0 end
  | None, Some eb => match w with player2 => presencePoints eb | _ => 0 end
  | None, None => 0
  end.

(** ** The specification's comparator *)

(** A rank as the specification has it, a positive integer or absent: a
    field that holds 0 counts as absent, since a rank of 0 means
    "unranked". *)
Definition presentRank (rank : option Z) : option Z :=
  match rank with
  | Some 0 => None
  | _ => rank
  end.

(** [better(rankA, rankB)]: the lower rank number wins; if either rank is
    absent, the side with a present rank wins; if both are absent or the
    ranks are equal, it is a tie.  Written on the ranks themselves,
    without the page's [getBetterRank]. *)
Definition better (rankA rankB : option Z) : Winner :=
  match rankA, rankB with
  | Some x, Some y =>
      if x <? y then player1 else if y <? x then player2 else tie
  | Some _, None => player1
  | None, Some _ => player2
  | None, None => tie
  end.

(** One discipline of an event in the fair tally: a point for [w] when
    both sides have a result in the discipline and [w] is the winner of
    the comparison of their world ranks; nothing on a tie or when a side
    has no result. *)
Definition disciplineAward (w : Winner) (resultA resultB : option RankInfo)
  : nat :=
  match resultA, resultB with
  | Some x, Some y =>
      if decide (better (presentRank (world_ranking x))
                        (presentRank (world_ranking y)) = w)
      then 1 else 0
  | _, _ => 0
  end.

(** The fair tally's points of side [w] for event [e]: the single and the
    average comparison of an event both records have, nothing for any
    other event. *)
Definition fairPoints (w : Winner) (a b : PlayerInfo) (e : string) : nat :=
  match personal_records a !! e, personal_records b !! e with
  | Some ea, Some eb =>
      disciplineAward w (single ea) (single eb)
      + disciplineAward w (average ea) (average eb)
  | _, _ => 0
  end.

(** ** Further definitions used in statements *)

(** The other side. *)
Definition swap (w : Winner) : Winner :=
  match w with
  | player1 => player2
  | player2 => player1
  | tie => tie
  end.

(** A result of [calculatePoints] with the two sides exchanged. *)
Definition swapTally (t : Tally) : Tally :=
  mkTally (points2 t) (points1 t) (events t).

Definition swapPoints (p : Points) : Points :=
  mkPoints (swapTally (fair p)) (swapTally (unfair p)).

(** The entries of [rank.singles] and of [rank.averages], empty when the
    field or [rank] is missing. *)
Definition singleEntries (player : RawPlayer) : list RawRecord :=
  default [] (player_rank player ≫= singles).

Definition averageEntries (player : RawPlayer) : list RawRecord :=
  default [] (player_rank player ≫= averages).

(** The last entry of a list for a given event id. *)
Definition lastEntry (event : string) (l : list RawRecord) : option RawRecord :=
  last (filter (λ r, eventId r = event) l).

(** The six region slots of an [EventStats]. *)
Definition slots (s : EventStats) : list RegionStats :=
  [nr (single_stats s); cr (single_stats s); wr (single_stats s);
   nr (average_stats s); cr (average_stats s); wr (average_stats s)].

(** The number of rows of the comparison table that show [w] as the
    winner of an event. *)
Definition rowsWon (w : Winner) (a b : PlayerInfo) (e : string) : nat :=
  length (filter (λ row, row.2 = w) (tableRows a b e)).

(** A character that is not an upper-case ASCII letter. *)
Definition not_upper (c : ascii) : Prop :=
  ¬ (65 ≤ nat_of_ascii c ≤ 90)%nat.

(** A number prints with one digit below 10 and with two from 10 on. *)
Definition two_digit_shape (k : Z) : bool :=
  match digits k with
  | String _ EmptyString => (k <? 10)%Z
  | String _ (String _ EmptyString) => (10 <=? k)%Z
  | _ => false
  end.

(** What every region slot satisfies: the percentile is within 0 and 100,
    nothing is negative, and a total of 0 marks the placeholder. *)
Definition standing_ok (s : RegionStats) : Prop :=
  (0 <= percentile s)%Q ∧ (percentile s <= 100)%Q ∧
  (0 <= percentDownList s)%Q ∧ 0 ≤ totalCompetitors s ∧
  (totalCompetitors s = 0 ↔ s = placeholder).

(** The six slots of an [EventStats], each with the response its total
    comes from and the result its rank comes from. *)
Definition slotSources (eventRecord : PersonalRecord) (responses : Responses)
  : list (RegionStats * Response * option RankInfo) :=
  let s := eventStats eventRecord responses in
  [(nr (single_stats s), nationalSingleResponse responses, single eventRecord);
   (cr (single_stats s), continentalSingleResponse responses, single eventRecord);
   (wr (single_stats s), worldSingleResponse responses, single eventRecord);
   (nr (average_stats s), nationalAverageResponse responses, average eventRecord);
   (cr (average_stats s), continentalAverageResponse responses, average eventRecord);
   (wr (average_stats s), worldAverageResponse responses, average eventRecord)].

(** ** Concrete inputs *)

(** [{ name: "X", rank: {} }]. *)
Definition payloadX : RawPlayer :=
  mkRawPlayer (Some "X"%string) None None None None (Some (mkRawRank None None)).

(** A competitor whose only result is a single with the given world rank
    in one event. *)
Definition onlySingle (who event : string) (worldRank : Z) : PlayerInfo :=
  mkPlayerInfo who (mkCountry None "xx") None None None
    {[ event := mkPersonalRecord
                  (Some (mkRankInfo 1000 (Some worldRank) None None)) None ]}.

(** A payload with two single entries and one average entry. *)
Definition payloadC : RawPlayer :=
  mkRawPlayer (Some "C"%string) (Some "IN"%string) None (Some "Asia"%string)
    (Some "2022RPRA01"%string)
    (Some (mkRawRank
             (Some [mkRawRecord "333" 900 (mkRawRanks (Some 40) (Some 12) (Some 3));
                    mkRawRecord "222" 300 (mkRawRanks (Some 7) (Some 2) (Some 1))])
             (Some [mkRawRecord "333" 1100
                      (mkRawRanks (Some 55) (Some 15) (Some 4))]))).

Definition competitorA : PlayerInfo := onlySingle "A" "333" 5.
Definition competitorB : PlayerInfo := onlySingle "B" "444" 3.

(** A competitor with a single and an average in "333" and a single in
    "222". *)
Definition competitorC : PlayerInfo :=
  mkPlayerInfo "C" (mkCountry (Some "IN"%string) "in") (Some "Asia"%string)
    (Some "2022RPRA01"%string) None
    (<["333" := mkPersonalRecord
                  (Some (mkRankInfo 900 (Some 40) (Some 12) (Some 3)))
                  (Some (mkRankInfo 1100 (Some 55) (Some 15) (Some 4)))]>
     {["222" := mkPersonalRecord
                  (Some (mkRankInfo 300 (Some 7) (Some 2) (Some 1))) None]}).

(** ** Percentile standing *)

Section Standing.

Local Open Scope Q_scope.

Lemma inject_Z_pos (n : Z) : (0 < n)%Z → 0 < inject_Z n.
Proof. intros H. change 0 with (inject_Z 0). by rewrite <- Zlt_Qlt. Qed.

Lemma computeStanding_ranked (rank total : Z) :
  (0 < rank)%Z → (0 < total)%Z →
  computeStanding rank total = calculateStats rank total.
Proof.
  intros Hr Ht. unfold computeStanding.
  destruct (Z.gtb_spec total 0); [|lia].
  destruct (Z.gtb_spec rank 0); [|lia]. reflexivity.
Qed.

(** [Math.max(0, Math.min(100, x))] is the spec's clamp to [0, 100]. *)
Lemma max_min_clamp (x : Q) : Qmax 0 (Qmin 100 x) == clamp x 0 100.
Proof.
  unfold clamp.
  destruct (Qlt_le_dec x 0) as [Hlo|Hlo].
  - rewrite (Q.min_r 100 x) by lra. apply Q.max_l. lra.
  - destruct (Qlt_le_dec 100 x) as [Hhi|Hhi].
    + rewrite (Q.min_l 100 x) by lra. apply Q.max_r. lra.
    + rewrite (Q.min_r 100 x) by lra. apply Q.max_r. lra.
Qed.

Lemma clamped_bounds (x : Q) : 0 <= Qmax 0 (Qmin 100 x) <= 100.
Proof.
  split; [apply Q.le_max_l|].
  apply Q.max_lub; [lra|apply Q.le_min_l].
Qed.

Lemma clamped_mono (x y : Q) :
  x <= y → Qmax 0 (Qmin 100 x) <= Qmax 0 (Qmin 100 y).
Proof.
  intros H. apply Q.max_le_compat_l. by apply Q.min_le_compat_l.
Qed.

(** Division by a positive total keeps the order of the numerators. *)
Lemma div_total_mono (a b n : Q) : 0 < n → a <= b → a / n <= b / n.
Proof.
  intros Hn Hab. unfold Qdiv. apply Qmult_le_compat_r; [done|].
  apply Qinv_le_0_compat. lra.
Qed.

Lemma div_total_self (n : Q) : 0 < n → n / n == 1.
Proof. intros Hn. field. lra. Qed.

(** The unclamped percentile of a rank within the list is positive. *)
Lemma raw_percentile_pos (r n : Q) :
  0 < n → r <= n → 0 < (1 - (r - 1) / n) * 100.
Proof.
  intros Hn Hr.
  assert ((r - 1) / n < 1); [|lra].
  apply Qlt_shift_div_r; [done|lra].
Qed.

Lemma raw_percentile_le_100 (r n : Q) :
  0 < n → 1 <= r → (1 - (r - 1) / n) * 100 <= 100.
Proof.
  intros Hn Hr.
  assert (0 <= (r - 1) / n); [|lra].
  apply Qle_shift_div_l; [done|lra].
Qed.

(** [calculateStats] on its own has no guard: a rank of 0 gives a
    percentile of 100. *)
Lemma calculateStats_unguarded :
  percentile (calculateStats 0 5) == 100 ∧ computeStanding 0 5 = unranked.
Proof. split; reflexivity. Qed.

(** C1: for positive [rank] and [totalCompetitors], the standing carries
    [percentDownList = rank / totalCompetitors * 100], the percentile
    [(1 - (rank - 1) / totalCompetitors) * 100] clamped to [0, 100], and the
    total it was given. *)
Theorem computeStanding_formula (rank total : Z) :
  (0 < rank)%Z → (0 < total)%Z →
  totalCompetitors (computeStanding rank total) = total ∧
  percentDownList (computeStanding rank total)
    == inject_Z rank / inject_Z total * 100 ∧
  percentile (computeStanding rank total)
    == clamp ((1 - (inject_Z rank - 1) / inject_Z total) * 100) 0 100.
Proof.
  intros Hr Ht. rewrite computeStanding_ranked by done.
  split; [reflexivity|]. split; [reflexivity|].
  cbn [percentile calculateStats]. apply max_min_clamp.
Qed.

Lemma computeStanding_formula_witness :
  totalCompetitors (computeStanding 50 100) = 100%Z ∧
  percentDownList (computeStanding 50 100)
    == inject_Z 50 / inject_Z 100 * 100 ∧
  percentile (computeStanding 50 100)
    == clamp ((1 - (inject_Z 50 - 1) / inject_Z 100) * 100) 0 100.
Proof. apply (computeStanding_formula 50 100); lia. Defined.

(** C2: with [rank <= 0] or [totalCompetitors <= 0] the standing is the
    unranked placeholder; the function is total, so there is no failure
    case. *)
Theorem computeStanding_unranked (rank total : Z) :
  (rank <= 0)%Z ∨ (total <= 0)%Z →
  computeStanding rank total = unranked.
Proof.
  intros H. unfold computeStanding.
  destruct (Z.gtb_spec total 0); [|reflexivity].
  destruct (Z.gtb_spec rank 0); [lia|reflexivity].
Qed.

Lemma computeStanding_unranked_witness :
  computeStanding 0 250 = unranked ∧ computeStanding 7 0 = unranked.
Proof.
  split.
  - apply (computeStanding_unranked 0 250). left. lia.
  - apply (computeStanding_unranked 7 0). right. lia.
Defined.

(** The percentile of a rank that is on the list, without the clamp. *)
Lemma percentile_on_list (rank total : Z) :
  (1 <= rank)%Z → (rank <= total)%Z →
  percentile (computeStanding rank total)
    == (1 - (inject_Z rank - 1) / inject_Z total) * 100.
Proof.
  intros Hr Ht. rewrite computeStanding_ranked by lia.
  cbn [percentile calculateStats].
  assert (0 < inject_Z total) as Hn by (apply inject_Z_pos; lia).
  assert (1 <= inject_Z rank) as Hr'.
  { change 1 with (inject_Z 1). by rewrite <- Zle_Qle. }
  assert (inject_Z rank <= inject_Z total) as Ht' by (by rewrite <- Zle_Qle).
  pose proof (raw_percentile_pos _ _ Hn Ht').
  pose proof (raw_percentile_le_100 _ _ Hn Hr').
  rewrite Q.min_r by done. apply Q.max_r. lra.
Qed.

(** C8: on a list of [N] the percentile does not increase with the rank,
    is exactly 100 at rank 1, and at rank [N] is
    [100 * (1 - (N - 1) / N)], which is positive (for every [N], so also
    for [N > 1]). *)
Theorem percentile_monotone (N : Z) :
  (0 < N)%Z →
  (∀ r1 r2 : Z, (1 <= r1)%Z → (r1 <= r2)%Z → (r2 <= N)%Z →
     percentile (computeStanding r2 N) <= percentile (computeStanding r1 N)) ∧
  percentile (computeStanding 1 N) = 100 ∧
  percentile (computeStanding N N)
    == 100 * (1 - (inject_Z N - 1) / inject_Z N) ∧
  ((1 < N)%Z → 0 < percentile (computeStanding N N)).
Proof.
  intros HN.
  assert (0 < inject_Z N) as Hn by (by apply inject_Z_pos).
  repeat split.
  - intros r1 r2 H1 H12 H2N.
    rewrite !computeStanding_ranked by lia.
    cbn [percentile calculateStats]. apply clamped_mono.
    assert (inject_Z r1 <= inject_Z r2) as H by (by rewrite <- Zle_Qle).
    assert ((inject_Z r1 - 1) / inject_Z N <= (inject_Z r2 - 1) / inject_Z N).
    { apply div_total_mono; [done|lra]. }
    lra.
  - rewrite computeStanding_ranked by lia.
    destruct N as [|p|p]; try lia.
    cbn [percentile calculateStats].
    assert (Qmin 100 ((1 - (inject_Z 1 - 1) / inject_Z (Z.pos p)) * 100) = 100)
      as ->; [|reflexivity].
    unfold Qmin, GenericMinMax.gmin, Qcompare.
    replace (Qnum 100 * QDen ((1 - (inject_Z 1 - 1) / inject_Z (Z.pos p)) * 100)
             ?= Qnum ((1 - (inject_Z 1 - 1) / inject_Z (Z.pos p)) * 100) * QDen 100)%Z
      with Eq; [reflexivity|].
    symmetry. apply Z.compare_eq_iff. cbn. lia.
  - rewrite percentile_on_list by lia. ring.
  - intros _. rewrite percentile_on_list by lia.
    apply raw_percentile_pos; [done|lra].
Qed.

Lemma percentile_monotone_witness :
  (∀ r1 r2 : Z, (1 <= r1)%Z → (r1 <= r2)%Z → (r2 <= 8)%Z →
     percentile (computeStanding r2 8) <= percentile (computeStanding r1 8)) ∧
  percentile (computeStanding 1 8) = 100 ∧
  percentile (computeStanding 8 8)
    == 100 * (1 - (inject_Z 8 - 1) / inject_Z 8) ∧
  ((1 < 8)%Z → 0 < percentile (computeStanding 8 8)).
Proof. apply (percentile_monotone 8). lia. Defined.

(** C9, as the source has it: for positive [rank] and [totalCompetitors]
    the percentile lies in [0, 100] and [percentDownList] is positive;
    [percentDownList] stays within 100 exactly when the rank does not
    exceed the total. *)
Theorem standing_bounds (rank total : Z) :
  (0 < rank)%Z → (0 < total)%Z →
  0 <= percentile (computeStanding rank total) <= 100 ∧
  0 <= percentDownList (computeStanding rank total) ∧
  (percentDownList (computeStanding rank total) <= 100 ↔ (rank <= total)%Z).
Proof.
  intros Hr Ht. rewrite computeStanding_ranked by done.
  cbn [percentile percentDownList calculateStats].
  assert (0 < inject_Z total) as Hn by (by apply inject_Z_pos).
  assert (0 < inject_Z rank) as Hr' by (by apply inject_Z_pos).
  split; [apply clamped_bounds|]. split.
  - assert (0 <= inject_Z rank / inject_Z total); [|lra].
    apply Qle_shift_div_l; [done|lra].
  - rewrite Zle_Qle. split; intros H.
    + assert (inject_Z rank / inject_Z total <= 1) as H1 by lra.
      apply (Qmult_le_compat_r _ _ (inject_Z total)) in H1; [|lra].
      assert (inject_Z rank / inject_Z total * inject_Z total == inject_Z rank)
        as E by (field; lra).
      lra.
    + assert (inject_Z rank / inject_Z total <= 1); [|lra].
      apply Qle_shift_div_r; [done|lra].
Qed.

Lemma standing_bounds_witness :
  0 <= percentile (computeStanding 3 10) <= 100 ∧
  0 <= percentDownList (computeStanding 3 10) ∧
  (percentDownList (computeStanding 3 10) <= 100 ↔ (3 <= 10)%Z).
Proof. apply (standing_bounds 3 10); lia. Defined.

(** C9 as stated fails: rank 2 on a list of 1 is a valid input, and its
    [percentDownList] is 200. *)
Lemma percentDownList_exceeds_100 :
  (0 < 2)%Z ∧ (0 < 1)%Z ∧
  percentDownList (computeStanding 2 1) == 200 ∧
  ¬ (0 <= percentDownList (computeStanding 2 1) <= 100).
Proof.
  split; [lia|]. split; [lia|]. split; [reflexivity|].
  intros [_ Hle]. vm_compute in Hle. by apply Hle.
Qed.

End Standing.

(** ** Percentile labels *)

Section Labels.

Local Open Scope Q_scope.

Lemma Qle_bool_true (x y : Q) : x <= y → Qle_bool x y = true.
Proof. apply Qle_bool_iff. Qed.

Lemma Qle_bool_false (x y : Q) : y < x → Qle_bool x y = false.
Proof.
  intros H. apply not_true_is_false. rewrite Qle_bool_iff. lra.
Qed.

#[local] Instance toFixed1_proper : Proper (Qeq ==> eq) toFixed1.
Proof.
  intros x y E. unfold toFixed1.
  assert (Qfloor (Qabs x * 10 + (1 # 2)) = Qfloor (Qabs y * 10 + (1 # 2))) as ->.
  { apply Qfloor_comp. by rewrite E. }
  assert (Qle_bool 0 x = Qle_bool 0 y) as ->; [|done].
  destruct (Qlt_le_dec x 0).
  - rewrite !Qle_bool_false; [done|lra..].
  - rewrite !Qle_bool_true; [done|lra..].
Qed.

(** For a positive percentile the three scopes print the same label. *)
Lemma labels_agree_positive (rank : Z) (p : Q) :
  0 < p →
  labelNational rank p = labelWorld rank p ∧
  labelContinental rank p = labelWorld rank p.
Proof.
  intros Hp. unfold labelNational, labelContinental, labelWorld.
  rewrite (Qle_bool_false p 0) by done. cbn [negb].
  by destruct (rank >? 0)%Z.
Qed.

(** The bands as the continental and world scopes print them. *)
Lemma labelWorld_bands (rank : Z) (p : Q) :
  (0 < rank)%Z →
  (999 # 10 <= p → labelWorld rank p = Some "Top 0.1%"%string) ∧
  (99 <= p → p < 999 # 10 → labelWorld rank p = Some "Top 1%"%string) ∧
  (0 < p → p < 99 →
     labelWorld rank p = Some ("Top " +:+ toFixed1 (100 - p) +:+ "%")%string) ∧
  (p == 0 → labelWorld rank p = Some "Ranked"%string).
Proof.
  intros Hr. unfold labelWorld.
  destruct (Z.gtb_spec rank 0) as [_|?]; [|lia].
  repeat split.
  - intros H. by rewrite Qle_bool_true.
  - intros H1 H2. rewrite Qle_bool_false by done. by rewrite Qle_bool_true.
  - intros H1 H2. rewrite !Qle_bool_false by lra. done.
  - intros H. rewrite !Qle_bool_false by lra.
    rewrite Qle_bool_true by lra. done.
Qed.

(** C4, national scope: with a positive national rank and a percentile of
    0, the analyzer prints "Top 100.0%" next to [NR:], while the
    continental and world rows print "Ranked". *)
Theorem labelNational_zero_percentile (rank : Z) (p : Q) :
  (0 < rank)%Z → p == 0 →
  labelNational rank p = Some "Top 100.0%"%string ∧
  labelContinental rank p = Some "Ranked"%string ∧
  labelWorld rank p = Some "Ranked"%string.
Proof.
  intros Hr Hp. unfold labelNational, labelContinental, labelWorld.
  destruct (Z.gtb_spec rank 0); [|lia].
  rewrite !Qle_bool_false by lra.
  rewrite Qle_bool_true by lra. cbn [negb].
  assert (100 - p == 100) as -> by lra.
  done.
Qed.

Lemma labelNational_zero_percentile_witness :
  labelNational 5 (percentile (computeStanding 5 0)) = Some "Top 100.0%"%string ∧
  labelContinental 5 (percentile (computeStanding 5 0)) = Some "Ranked"%string ∧
  labelWorld 5 (percentile (computeStanding 5 0)) = Some "Ranked"%string.
Proof.
  apply (labelNational_zero_percentile 5 (percentile (computeStanding 5 0)));
    [lia|reflexivity].
Defined.

End Labels.

(** ** The payload transformation *)

Section Normalizer.

Lemma addSingle_fold_empty (l : list RawRecord) (m : gmap string PersonalRecord) :
  foldl addSingle m l = ∅ ↔ m = ∅ ∧ l = [].
Proof.
  revert m. induction l as [|r l IH]; intros m; cbn [foldl].
  - split; [intros ->; done|by intros [-> _]].
  - rewrite IH. unfold addSingle. split; [|by intros [_ ?]].
    intros [H _]. by apply insert_non_empty in H.
Qed.

Lemma addAverage_fold_empty (l : list RawRecord) (m : gmap string PersonalRecord) :
  foldl addAverage m l = ∅ ↔ m = ∅ ∧ l = [].
Proof.
  revert m. induction l as [|r l IH]; intros m; cbn [foldl].
  - split; [intros ->; done|by intros [-> _]].
  - rewrite IH. unfold addAverage. split; [|by intros [_ ?]].
    intros [H _]. by apply insert_non_empty in H.
Qed.

(** The transformation yields no event record exactly when the payload has
    no single and no average entry. *)
Lemma collectRecords_empty_iff (player : RawPlayer) :
  collectRecords player = ∅ ↔ usableRecords player = [].
Proof.
  unfold collectRecords, usableRecords.
  destruct (player_rank player) as [[ss avs]|]; [|done].
  cbn [singles averages].
  destruct ss as [ss|], avs as [avs|]; cbn;
    rewrite ?addAverage_fold_empty, ?addSingle_fold_empty, ?app_nil_r;
    try done.
  - split.
    + by intros [[_ ->] ->].
    + by intros [-> ->]%app_eq_nil.
  - split; [by intros [_ ->]|by intros ->].
  - split; [by intros [_ ->]|by intros ->].
Qed.

Lemma keys_empty_iff (m : gmap string PersonalRecord) :
  (length (keys m) =? 0)%nat = true ↔ m = ∅.
Proof.
  unfold keys. rewrite Nat.eqb_eq, length_fmap, length_zero_iff_nil.
  apply map_to_list_empty_iff.
Qed.

(** The analyzer never shows a player without event records. *)
Lemma fetchStats_records_nonempty player avatarUrl info :
  fetchStats player avatarUrl = inr info → personal_records info ≠ ∅.
Proof.
  unfold fetchStats. destruct player as [player|]; [|done].
  destruct (truthy_string (player_name player)); [|done]. cbn [negb].
  destruct (length (keys _) =? 0)%nat eqn:E; [done|].
  intros [= <-] H. apply keys_empty_iff in H. congruence.
Qed.

(** C3: on a named payload without any single or average entry the
    analyzer's [fetchStats] fails with [NoRecordsFound], whereas the
    comparison page's [fetchPlayerData] returns a competitor whose
    [personal_records] is empty. *)
Theorem fetchPlayerData_accepts_empty_records player avatarUrl :
  truthy_string (player_name player) = true →
  usableRecords player = [] →
  fetchStats (Some player) avatarUrl = inl NoRecordsFound ∧
  ∃ info, fetchPlayerData (Some player) avatarUrl = inr info
          ∧ personal_records info = ∅.
Proof.
  intros Hname Hnone. apply collectRecords_empty_iff in Hnone.
  unfold fetchStats, fetchPlayerData. rewrite Hname. cbn [negb]. split.
  - assert ((length (keys (personal_records (transformedPlayer player avatarUrl)))
             =? 0)%nat = true) as ->; [|done].
    by apply keys_empty_iff.
  - by eexists.
Qed.

Lemma fetchPlayerData_accepts_empty_records_witness :
  fetchStats (Some payloadX) None = inl NoRecordsFound ∧
  ∃ info, fetchPlayerData (Some payloadX) None = inr info
          ∧ personal_records info = ∅.
Proof.
  apply (fetchPlayerData_accepts_empty_records payloadX None); reflexivity.
Defined.

End Normalizer.

(** ** The per-discipline comparator *)

Section Comparator.

Lemma getBetterRank_same (r : option Z) : getBetterRank r r = tie.
Proof.
  unfold getBetterRank. destruct (truthy r); cbn; [|done].
  by rewrite Z.ltb_irrefl, Z.gtb_ltb, Z.ltb_irrefl.
Qed.

(** Two present, non-zero ranks: the lower number wins. *)
Lemma getBetterRank_ranked (r1 r2 : Z) :
  r1 ≠ 0 → r2 ≠ 0 →
  getBetterRank (Some r1) (Some r2)
  = if r1 <? r2 then player1 else if r2 <? r1 then player2 else tie.
Proof.
  intros H1 H2. unfold getBetterRank, truthy.
  destruct (Z.eqb_spec r1 0); [done|]. destruct (Z.eqb_spec r2 0); [done|].
  cbn. by rewrite Z.gtb_ltb.
Qed.

(** C10: a rank of 0 is treated like an absent rank.  Against any positive
    rank [r] the side with rank 0 loses, whichever side it is and however
    large [r] is; two ranks of 0 tie; and replacing 0 by [undefined] on
    either side never changes the outcome. *)
Theorem getBetterRank_zero_is_absent (r : Z) :
  0 < r →
  getBetterRank (Some 0) (Some r) = player2 ∧
  getBetterRank (Some r) (Some 0) = player1 ∧
  getBetterRank (Some 0) (Some 0) = tie ∧
  (∀ x, getBetterRank (Some 0) x = getBetterRank None x) ∧
  (∀ x, getBetterRank x (Some 0) = getBetterRank x None).
Proof.
  intros Hr. unfold getBetterRank, truthy.
  destruct (Z.eqb_spec r 0); [lia|]. cbn.
  by repeat split.
Qed.

Lemma getBetterRank_zero_is_absent_witness :
  getBetterRank (Some 0) (Some 90000) = player2 ∧
  getBetterRank (Some 90000) (Some 0) = player1 ∧
  getBetterRank (Some 0) (Some 0) = tie ∧
  (∀ x, getBetterRank (Some 0) x = getBetterRank None x) ∧
  (∀ x, getBetterRank x (Some 0) = getBetterRank x None).
Proof. apply (getBetterRank_zero_is_absent 90000). lia. Defined.

End Comparator.

(** ** The point tallies *)

Section Tallies.

Implicit Types (a b : PlayerInfo) (e : string) (c : Counters) (w : Winner).

Lemma shared_lookup a b e :
  e ∈ sharedEvents a b
  ↔ is_Some (personal_records a !! e) ∧ is_Some (personal_records b !! e).
Proof. unfold sharedEvents. by rewrite elem_of_intersection, !elem_of_dom. Qed.

Lemma compareBoth_points (e1 e2 : PersonalRecord) (p : nat * nat) :
  compareBoth e1 e2 p
  = (fst p + comparisonPoints player1 e1 e2,
     snd p + comparisonPoints player2 e1 e2)%nat.
Proof.
  destruct p as [n m]. unfold compareBoth, comparisonPoints, disciplinePoint.
  destruct (single e1) as [s1|], (single e2) as [s2|],
    (average e1) as [a1|], (average e2) as [a2|];
    repeat match goal with
      | |- context [getBetterRank ?x ?y] => destruct (getBetterRank x y)
      end;
    cbn; repeat case_decide; try congruence; f_equal; lia.
Qed.

Lemma held_points (r : PersonalRecord) (n : nat) :
  held r n = (n + presencePoints r)%nat.
Proof.
  unfold held, presencePoints.
  destruct (single r), (average r); lia.
Qed.

(** One iteration of the loop adds the event's awards to the four
    counters and records the event. *)
Lemma visit_awards a b c e :
  visit a b c e
  = mkCounters
      (fairPoints1 c + fairAward player1 a b e)
      (fairPoints2 c + fairAward player2 a b e)
      (unfairPoints1 c + unfairAward player1 a b e)
      (unfairPoints2 c + unfairAward player2 a b e)
      (fairEvents c ++ filter (λ x, x ∈ sharedEvents a b) [e])
      (unfairEvents c ++ [e]).
Proof.
  unfold visit, fairAward, unfairAward.
  rewrite filter_cons, filter_nil.
  destruct (decide (e ∈ sharedEvents a b)) as [Hin|Hout].
  - apply shared_lookup in Hin as [[ea ->] [eb ->]].
    rewrite !compareBoth_points. reflexivity.
  - rewrite shared_lookup in Hout.
    destruct (personal_records a !! e) as [ea|], (personal_records b !! e) as [eb|];
      cbn [fst snd].
    + destruct Hout. split; by eexists.
    + rewrite held_points, app_nil_r. f_equal; lia.
    + rewrite held_points, app_nil_r. f_equal; lia.
    + rewrite app_nil_r. f_equal; lia.
Qed.

(** The loop over any list of events. *)
Lemma foldl_visit a b (l : list string) c :
  foldl (visit a b) c l
  = mkCounters
      (fairPoints1 c + sum_list_with (fairAward player1 a b) l)
      (fairPoints2 c + sum_list_with (fairAward player2 a b) l)
      (unfairPoints1 c + sum_list_with (unfairAward player1 a b) l)
      (unfairPoints2 c + sum_list_with (unfairAward player2 a b) l)
      (fairEvents c ++ filter (λ x, x ∈ sharedEvents a b) l)
      (unfairEvents c ++ l).
Proof.
  revert c. induction l as [|e l IH]; intros c.
  - destruct c. cbn. rewrite !app_nil_r. f_equal; lia.
  - cbn [foldl]. rewrite IH, visit_awards.
    cbn [fairPoints1 fairPoints2 unfairPoints1 unfairPoints2
         fairEvents unfairEvents sum_list_with].
    rewrite (filter_cons _ e l), filter_cons, filter_nil.
    destruct (decide (e ∈ sharedEvents a b));
      rewrite <- !app_assoc; cbn [app]; f_equal; lia.
Qed.

Lemma calculatePoints_sums a b :
  calculatePoints (Some a) (Some b)
  = let l := getAllEvents (Some a) (Some b) in
    {| fair := mkTally (sum_list_with (fairAward player1 a b) l)
                       (sum_list_with (fairAward player2 a b) l)
                       (filter (λ x, x ∈ sharedEvents a b) l);
       unfair := mkTally (sum_list_with (unfairAward player1 a b) l)
                         (sum_list_with (unfairAward player2 a b) l)
                         l |}.
Proof. unfold calculatePoints. rewrite foldl_visit. reflexivity. Qed.

(** [getAllEvents] lists every event of either player once. *)
Lemma getAllEvents_all a b :
  getAllEvents (Some a) (Some b) ≡ₚ elements (allEvents a b).
Proof.
  unfold getAllEvents, allEvents. rewrite merge_sort_Permutation.
  by rewrite (left_id_L ∅ (∪)).
Qed.

#[local] Instance code_unit_le_total : Total code_unit_le.
Proof.
  intros s t. unfold code_unit_le.
  destruct (String.leb_total s t) as [->| ->]; [by left|by right].
Qed.

(** [getAllEvents] is in the order [sort()] leaves it in. *)
Lemma getAllEvents_sorted (p q : option PlayerInfo) :
  Sorted code_unit_le (getAllEvents p q).
Proof. unfold getAllEvents. apply (Sorted_merge_sort _). Qed.

Lemma getAllEvents_shared a b :
  filter (λ x, x ∈ sharedEvents a b) (getAllEvents (Some a) (Some b))
  ≡ₚ elements (sharedEvents a b).
Proof.
  apply NoDup_Permutation.
  - apply NoDup_filter. rewrite getAllEvents_all. apply NoDup_elements.
  - apply NoDup_elements.
  - intros e. rewrite list_elem_of_filter, getAllEvents_all, !elem_of_elements.
    unfold sharedEvents, allEvents.
    rewrite elem_of_intersection, elem_of_union. tauto.
Qed.

(** Events outside the intersection carry no fair points. *)
Lemma fairAward_outside a b e w : e ∉ sharedEvents a b → fairAward w a b e = 0%nat.
Proof.
  rewrite shared_lookup. unfold fairAward. intros H.
  destruct (personal_records a !! e), (personal_records b !! e); try done.
  destruct H. split; by eexists.
Qed.

Lemma fair_sum_shared a b w (l : list string) :
  sum_list_with (fairAward w a b) l
  = sum_list_with (fairAward w a b) (filter (λ x, x ∈ sharedEvents a b) l).
Proof.
  induction l as [|e l IH]; [done|].
  rewrite filter_cons. destruct (decide (e ∈ sharedEvents a b)) as [|Hout].
  - cbn. by rewrite IH.
  - cbn. by rewrite IH, fairAward_outside.
Qed.

(** A tie gives the discipline's point to nobody, and no discipline gives
    more than one point. *)
Lemma tie_awards_nothing (x y : RankInfo) :
  getBetterRank (world_ranking x) (world_ranking y) = tie →
  disciplinePoint player1 (Some x) (Some y) = 0%nat
  ∧ disciplinePoint player2 (Some x) (Some y) = 0%nat.
Proof. unfold disciplinePoint. intros ->. by repeat case_decide. Qed.

Lemma discipline_one_point (r1 r2 : option RankInfo) :
  (disciplinePoint player1 r1 r2 + disciplinePoint player2 r1 r2 ≤ 1)%nat.
Proof.
  unfold disciplinePoint. destruct r1, r2; try (cbn; lia).
  destruct (getBetterRank _ _); repeat case_decide; try congruence; lia.
Qed.

(** The page's comparator is the specification's: on two present ranks
    the lower number wins, a present rank beats an absent one, and equal
    or both absent ranks tie. *)
Lemma getBetterRank_better (rank1 rank2 : option Z) :
  getBetterRank rank1 rank2 = better (presentRank rank1) (presentRank rank2).
Proof.
  unfold getBetterRank, truthy.
  destruct rank1 as [[|x|x]|], rank2 as [[|y|y]|]; cbn; try done;
    by rewrite Z.gtb_ltb.
Qed.

Lemma fairAward_fairPoints w a b e : fairAward w a b e = fairPoints w a b e.
Proof.
  unfold fairAward, fairPoints, comparisonPoints, disciplinePoint,
    disciplineAward.
  destruct (personal_records a !! e) as [ea|],
    (personal_records b !! e) as [eb|]; try done.
  destruct (single ea) as [x1|], (single eb) as [y1|],
    (average ea) as [x2|], (average eb) as [y2|];
    by rewrite ?getBetterRank_better.
Qed.

Lemma sum_fairAward_fairPoints w a b (l : list string) :
  sum_list_with (fairAward w a b) l = sum_list_with (fairPoints w a b) l.
Proof.
  induction l as [|e l IH]; [done|].
  cbn. by rewrite IH, fairAward_fairPoints.
Qed.

(** C5: the fair tally lists exactly the events present in both records,
    and each side's total is the sum, over those events, of one point per
    discipline in which both sides have a result and that side wins the
    comparison [better] of the two world ranks (the lower rank number, or
    the only present rank); a tie, a discipline missing on a side and an
    event missing on a side give nothing. *)
Theorem fair_tally_shared_events a b :
  let r := fair (calculatePoints (Some a) (Some b)) in
  events r = filter (λ x, x ∈ sharedEvents a b) (getAllEvents (Some a) (Some b)) ∧
  events r ≡ₚ elements (sharedEvents a b) ∧
  points1 r = sum_list_with (fairPoints player1 a b) (elements (sharedEvents a b)) ∧
  points2 r = sum_list_with (fairPoints player2 a b) (elements (sharedEvents a b)).
Proof.
  rewrite calculatePoints_sums. cbn [fair events points1 points2].
  split; [done|]. split; [apply getAllEvents_shared|].
  rewrite !(fair_sum_shared a b _ (getAllEvents _ _)), !getAllEvents_shared.
  by rewrite !sum_fairAward_fairPoints.
Qed.

(** What [better] awards, spelled out on two recorded results with ranks
    [x] and [y] that are present and not 0. *)
Lemma disciplineAward_ranked (rx ry : RankInfo) (x y : Z) :
  world_ranking rx = Some x → world_ranking ry = Some y → x ≠ 0 → y ≠ 0 →
  disciplineAward player1 (Some rx) (Some ry) = (if x <? y then 1%nat else 0%nat) ∧
  disciplineAward player2 (Some rx) (Some ry) = (if y <? x then 1%nat else 0%nat).
Proof.
  intros Hrx Hry Hx Hy. unfold disciplineAward. rewrite Hrx, Hry.
  assert (presentRank (Some x) = Some x) as -> by (by destruct x).
  assert (presentRank (Some y) = Some y) as -> by (by destruct y).
  unfold better.
  destruct (Z.ltb_spec x y), (Z.ltb_spec y x);
    repeat case_decide; try done; lia.
Qed.

(** C6: the unfair tally lists every event of either record; an event held
    by one side only gives that side one point per discipline it has a
    result in and the other side nothing; an event held by both is scored
    as in the fair tally. *)
Theorem unfair_tally_all_events a b :
  let r := unfair (calculatePoints (Some a) (Some b)) in
  events r = getAllEvents (Some a) (Some b) ∧
  events r ≡ₚ elements (allEvents a b) ∧
  points1 r = sum_list_with (unfairAward player1 a b) (elements (allEvents a b)) ∧
  points2 r = sum_list_with (unfairAward player2 a b) (elements (allEvents a b)) ∧
  (∀ e ea, personal_records a !! e = Some ea → personal_records b !! e = None →
     unfairAward player1 a b e = presencePoints ea
     ∧ unfairAward player2 a b e = 0%nat) ∧
  (∀ e eb, personal_records a !! e = None → personal_records b !! e = Some eb →
     unfairAward player1 a b e = 0%nat
     ∧ unfairAward player2 a b e = presencePoints eb) ∧
  (∀ e w, e ∈ sharedEvents a b → unfairAward w a b e = fairAward w a b e).
Proof.
  rewrite calculatePoints_sums. cbn [unfair events points1 points2].
  split; [done|]. split; [apply getAllEvents_all|].
  rewrite !getAllEvents_all. do 2 (split; [done|]).
  unfold unfairAward, fairAward. split; [|split].
  - intros e ea -> ->. done.
  - intros e eb -> ->. done.
  - intros e w [[ea ->] [eb ->]]%shared_lookup. done.
Qed.

(** Scenario 3 of the specification. *)
Example comparePoints_scenario_3 :
  calculatePoints (Some competitorA) (Some competitorB)
  = {| fair := mkTally 0 0 [];
       unfair := mkTally 1 1 ["333"; "444"]%string |}.
Proof. vm_compute. reflexivity. Qed.

Lemma comparisonPoints_same (r : PersonalRecord) w :
  w ≠ tie → comparisonPoints w r r = 0%nat.
Proof.
  intros Hw. unfold comparisonPoints, disciplinePoint.
  destruct (single r), (average r); rewrite ?getBetterRank_same;
    repeat case_decide; try done; congruence.
Qed.

Lemma sum_list_with_zero {A} (f : A → nat) (l : list A) :
  (∀ x, f x = 0%nat) → sum_list_with f l = 0%nat.
Proof. intros H. induction l as [|x l IH]; cbn; [done|]. by rewrite H, IH. Qed.

Lemma awards_same a e w :
  w ≠ tie → fairAward w a a e = 0%nat ∧ unfairAward w a a e = 0%nat.
Proof.
  intros Hw. unfold fairAward, unfairAward.
  destruct (personal_records a !! e); [|done].
  by rewrite comparisonPoints_same.
Qed.

(** C7: a record compared with itself scores nothing on either side, in
    the fair and in the unfair tally, so both pairs of totals are equal. *)
Theorem calculatePoints_identical a :
  let r := calculatePoints (Some a) (Some a) in
  points1 (fair r) = points2 (fair r) ∧
  points1 (unfair r) = points2 (unfair r) ∧
  points1 (fair r) = 0%nat ∧ points1 (unfair r) = 0%nat.
Proof.
  rewrite calculatePoints_sums. cbn [fair unfair points1 points2].
  rewrite !sum_list_with_zero; [done|intros e; by apply awards_same..].
Qed.

Example calculatePoints_identical_C :
  calculatePoints (Some competitorC) (Some competitorC)
  = {| fair := mkTally 0 0 ["222"; "333"]%string;
       unfair := mkTally 0 0 ["222"; "333"]%string |}.
Proof. vm_compute. reflexivity. Qed.

End Tallies.

(** ** More on the percentile standing *)

Section StandingFacts.

Local Open Scope Q_scope.

Lemma div_ge_one_iff (a n : Q) : 0 < n → (1 <= a / n ↔ n <= a).
Proof.
  intros Hn. split; intros H.
  - destruct (Qlt_le_dec a n) as [Hlt|]; [|done].
    assert (a / n < 1); [|lra].
    apply Qlt_shift_div_r; [done|lra].
  - apply Qle_shift_div_l; [done|lra].
Qed.

Lemma div_le_const_iff (a n c : Q) : 0 < n → (a / n <= c ↔ a <= c * n).
Proof.
  intros Hn. split; intros H.
  - destruct (Qlt_le_dec (c * n) a) as [Hlt|]; [|done].
    assert (c < a / n); [|lra].
    apply Qlt_shift_div_l; [done|lra].
  - apply Qle_shift_div_r; [done|lra].
Qed.

(** The clamp is inactive up to one place past the end of the list. *)
Lemma percentile_unclamped (rank total : Z) :
  (0 < total)%Z → (1 <= rank)%Z → (rank <= total + 1)%Z →
  percentile (computeStanding rank total)
    == (1 - (inject_Z rank - 1) / inject_Z total) * 100.
Proof.
  intros Hpos Hr Ht.
  rewrite computeStanding_ranked by lia.
  cbn [percentile calculateStats].
  assert (0 < inject_Z total) as Hn by (apply inject_Z_pos; lia).
  assert (1 <= inject_Z rank) as Hr'.
  { change 1 with (inject_Z 1). by rewrite <- Zle_Qle. }
  assert (inject_Z rank <= inject_Z total + 1) as Ht'.
  { change 1 with (inject_Z 1). rewrite <- inject_Z_plus. by rewrite <- Zle_Qle. }
  pose proof (raw_percentile_le_100 _ _ Hn Hr').
  assert ((inject_Z rank - 1) / inject_Z total <= 1).
  { apply Qle_shift_div_r; [done|lra]. }
  rewrite Q.min_r by done. apply Q.max_r. lra.
Qed.

(** X1: Within the list a worse rank has a strictly smaller percentile: two
    ranked competitors never share a percentile. *)
Theorem percentile_strictly_decreasing (N r1 r2 : Z) :
  (1 <= r1)%Z → (r1 < r2)%Z → (r2 <= N)%Z →
  percentile (computeStanding r2 N) < percentile (computeStanding r1 N).
Proof.
  intros H1 H12 H2.
  rewrite !percentile_unclamped by lia.
  assert (0 < inject_Z N) as Hn by (apply inject_Z_pos; lia).
  assert (inject_Z r1 < inject_Z r2) as H by (by rewrite <- Zlt_Qlt).
  assert ((inject_Z r1 - 1) / inject_Z N < (inject_Z r2 - 1) / inject_Z N);
    [|lra].
  unfold Qdiv. apply Qmult_lt_compat_r; [|lra].
  apply Qinv_lt_0_compat. lra.
Qed.

Lemma percentile_strictly_decreasing_witness :
  percentile (computeStanding 4 10) < percentile (computeStanding 3 10).
Proof. apply (percentile_strictly_decreasing 10 3 4); lia. Defined.

Lemma zero_percentile_beyond_list (rank total : Z) :
  (0 < rank)%Z → (0 < total)%Z →
  (percentile (computeStanding rank total) == 0 ↔ (total < rank)%Z).
Proof.
  intros Hr Ht. rewrite computeStanding_ranked by done.
  cbn [percentile calculateStats].
  assert (0 < inject_Z total) as Hn by (by apply inject_Z_pos).
  rewrite Q.max_l_iff, Q.min_le_iff.
  pose proof (div_ge_one_iff (inject_Z rank - 1) (inject_Z total) Hn) as Hd.
  assert (inject_Z total <= inject_Z rank - 1 ↔ (total < rank)%Z) as Hz.
  { change 1 with (inject_Z 1). unfold Qminus.
    rewrite <- inject_Z_opp, <- inject_Z_plus, <- Zle_Qle. lia. }
  rewrite <- Hz, <- Hd. split.
  - intros [?|?]; lra.
  - intros ?. right. lra.
Qed.

(** X2: For positive inputs the percentile is 0 exactly when the rank lies
    beyond the end of the list: a real rank can carry the same percentile
    as the unranked placeholder. *)
Theorem percentile_zero_iff (rank total : Z) :
  (0 < rank)%Z → (0 < total)%Z →
  (percentile (computeStanding rank total) == 0 ↔ (total < rank)%Z).
Proof. apply zero_percentile_beyond_list. Qed.

Lemma percentile_zero_iff_witness :
  percentile (computeStanding 11 10) == 0 ↔ (10 < 11)%Z.
Proof. apply (percentile_zero_iff 11 10); lia. Defined.

(** X3: For positive inputs the percentile is 100 exactly at rank 1. *)
Theorem percentile_full_iff (rank total : Z) :
  (0 < rank)%Z → (0 < total)%Z →
  (percentile (computeStanding rank total) == 100 ↔ rank = 1%Z).
Proof.
  intros Hr Ht. rewrite computeStanding_ranked by done.
  cbn [percentile calculateStats].
  assert (0 < inject_Z total) as Hn by (by apply inject_Z_pos).
  assert (1 <= inject_Z rank) as Hr'.
  { change 1 with (inject_Z 1). rewrite <- Zle_Qle. lia. }
  pose proof (raw_percentile_le_100 _ _ Hn Hr') as Hle.
  rewrite Q.min_r by done.
  set (q := (inject_Z rank - 1) / inject_Z total) in *.
  assert (0 <= q) as Hq0 by (apply Qle_shift_div_l; [done|lra]).
  assert (q <= 0 ↔ rank = 1%Z) as Hq.
  { unfold q. rewrite div_le_const_iff by done.
    assert (inject_Z rank - 1 <= 0 * inject_Z total ↔ inject_Z rank <= inject_Z 1)
      as -> by (change (inject_Z 1) with 1; split; lra).
    rewrite <- Zle_Qle. lia. }
  rewrite <- Hq.
  destruct (Q.max_spec 0 ((1 - q) * 100)) as [[_ ->]|[? ->]]; split; lra.
Qed.

Lemma percentile_full_iff_witness :
  percentile (computeStanding 1 250) == 100 ↔ 1%Z = 1%Z.
Proof. apply (percentile_full_iff 1 250); lia. Defined.

(** X5: For a positive total, [percentDownList] grows strictly with the
    rank: two different ranks on one leaderboard never get the same
    [percentDownList], so the rank is determined by it. *)
Theorem percentDownList_strictly_increasing (N r1 r2 : Z) :
  (0 < N)%Z → (0 < r1)%Z → (r1 < r2)%Z →
  percentDownList (computeStanding r1 N) < percentDownList (computeStanding r2 N).
Proof.
  intros HN H1 H12. rewrite !computeStanding_ranked by lia.
  cbn [percentDownList calculateStats].
  assert (0 < inject_Z N) as Hn by (by apply inject_Z_pos).
  assert (inject_Z r1 < inject_Z r2) as H by (by rewrite <- Zlt_Qlt).
  assert (inject_Z r1 / inject_Z N < inject_Z r2 / inject_Z N); [|lra].
  unfold Qdiv. apply Qmult_lt_compat_r; [|done].
  apply Qinv_lt_0_compat. lra.
Qed.

Lemma percentDownList_strictly_increasing_witness :
  percentDownList (computeStanding 3 10) < percentDownList (computeStanding 4 10).
Proof. apply (percentDownList_strictly_increasing 10 3 4); lia. Defined.

End StandingFacts.

(** ** The labels as functions of rank and total *)

Section LabelFacts.

Local Open Scope Q_scope.

(** The share of the list strictly ahead of a rank. *)
Lemma ahead_share (rank total : Z) :
  (0 < total)%Z → (1 <= rank)%Z → (rank <= total + 1)%Z →
  100 - percentile (computeStanding rank total)
    == inject_Z (100 * (rank - 1)) / inject_Z total.
Proof.
  intros Ht H1 H2. rewrite percentile_unclamped by done.
  assert (0 < inject_Z total) as Hn by (by apply inject_Z_pos).
  rewrite inject_Z_mult. unfold Z.sub. rewrite inject_Z_plus, inject_Z_opp.
  change (inject_Z 100) with 100. change (inject_Z 1) with 1.
  field. lra.
Qed.

(** A percentile threshold as a comparison of integers. *)
Lemma percentile_ge_iff (rank total k : Z) :
  (0 < total)%Z → (1 <= rank)%Z → (rank <= total + 1)%Z →
  (100 - inject_Z k / 10 <= percentile (computeStanding rank total)
   ↔ (1000 * (rank - 1) <= k * total)%Z).
Proof.
  intros Ht H1 H2.
  assert (0 < inject_Z total) as Hn by (by apply inject_Z_pos).
  pose proof (ahead_share rank total Ht H1 H2) as E.
  set (p := percentile (computeStanding rank total)) in *.
  assert (100 - inject_Z k / 10 <= p ↔
          inject_Z (100 * (rank - 1)) / inject_Z total <= inject_Z k / 10) as ->.
  { rewrite <- E. split; lra. }
  rewrite div_le_const_iff by done.
  rewrite Zle_Qle, !inject_Z_mult.
  change (inject_Z 1000) with 1000. change (inject_Z 100) with 100.
  assert (inject_Z k / 10 * inject_Z total
          == (1 # 10) * (inject_Z k * inject_Z total)) as -> by field.
  generalize (inject_Z k * inject_Z total) (inject_Z (rank - 1)).
  intros m r. split; lra.
Qed.

(** X6: The world and continental labels of a positive rank, by
    comparisons of integers: "Top 0.1%" while at most a thousandth of the
    list is ahead, "Top 1%" while at most a hundredth is, the printed share
    ["Top " + (100 - percentile).toFixed(1) + "%"] for every other rank on
    the list, and "Ranked" for a rank beyond the end of the list. *)
Theorem label_of_rank (rank total : Z) :
  (0 < rank)%Z → (0 < total)%Z →
  labelContinental rank (percentile (computeStanding rank total))
  = labelWorld rank (percentile (computeStanding rank total)) ∧
  ((1000 * (rank - 1) <= total)%Z →
   labelWorld rank (percentile (computeStanding rank total))
   = Some "Top 0.1%"%string) ∧
  ((total < 1000 * (rank - 1))%Z → (100 * (rank - 1) <= total)%Z →
   labelWorld rank (percentile (computeStanding rank total))
   = Some "Top 1%"%string) ∧
  ((total < 100 * (rank - 1))%Z → (rank <= total)%Z →
   labelWorld rank (percentile (computeStanding rank total))
   = Some ("Top "
           +:+ toFixed1 (100 - percentile (computeStanding rank total))
           +:+ "%")%string) ∧
  ((total < rank)%Z →
   labelWorld rank (percentile (computeStanding rank total))
   = Some "Ranked"%string).
Proof.
  intros Hr Ht. split; [reflexivity|].
  unfold labelWorld. destruct (Z.gtb_spec rank 0) as [_|?]; [|lia].
  set (p := percentile (computeStanding rank total)).
  assert (∀ k : Z, (rank <= total + 1)%Z →
            (100 - inject_Z k / 10 <= p ↔ (1000 * (rank - 1) <= k * total)%Z))
    as Hk.
  { intros k H. apply percentile_ge_iff; lia. }
  assert (100 - inject_Z 1 / 10 == 999 # 10) as E1 by reflexivity.
  assert (100 - inject_Z 10 / 10 == 99) as E10 by reflexivity.
  repeat split.
  - intros H. rewrite Qle_bool_true; [done|].
    rewrite <- E1. apply Hk; lia.
  - intros H1 H2. rewrite Qle_bool_false, Qle_bool_true; [done|..].
    + rewrite <- E10. apply Hk; lia.
    + apply Qnot_le_lt. rewrite <- E1, Hk by lia. lia.
  - intros H1 H2.
    assert (p < 99) as Hp.
    { apply Qnot_le_lt. rewrite <- E10, Hk by lia. lia. }
    assert (0 < p) as Hp0.
    { destruct (Qlt_le_dec 0 p) as [|Hle]; [done|].
      assert (p == 0) as Hz.
      { apply Qle_antisym; [done|]. unfold p.
        rewrite computeStanding_ranked by lia. apply clamped_bounds. }
      apply zero_percentile_beyond_list in Hz; [lia|done..]. }
    by rewrite !Qle_bool_false by lra.
  - intros H.
    assert (p == 0) as Hz by (by apply zero_percentile_beyond_list).
    rewrite !Qle_bool_false by lra. by rewrite Qle_bool_true by lra.
Qed.

Lemma label_of_rank_witness :
  labelContinental 334 (percentile (computeStanding 334 1000))
  = labelWorld 334 (percentile (computeStanding 334 1000)) ∧
  ((1000 * (334 - 1) <= 1000)%Z →
   labelWorld 334 (percentile (computeStanding 334 1000))
   = Some "Top 0.1%"%string) ∧
  ((1000 < 1000 * (334 - 1))%Z → (100 * (334 - 1) <= 1000)%Z →
   labelWorld 334 (percentile (computeStanding 334 1000))
   = Some "Top 1%"%string) ∧
  ((1000 < 100 * (334 - 1))%Z → (334 <= 1000)%Z →
   labelWorld 334 (percentile (computeStanding 334 1000))
   = Some ("Top "
           +:+ toFixed1 (100 - percentile (computeStanding 334 1000))
           +:+ "%")%string) ∧
  ((1000 < 334)%Z →
   labelWorld 334 (percentile (computeStanding 334 1000))
   = Some "Ranked"%string).
Proof. apply (label_of_rank 334 1000); lia. Defined.

Example label_rank_334_of_1000 :
  labelWorld 334 (percentile (computeStanding 334 1000)) = Some "Top 33.3%"%string.
Proof. vm_compute. reflexivity. Qed.

(** X7: For a rank on the list, the national row prints what the world and
    continental rows print. *)
Theorem labelNational_on_list (rank total : Z) :
  (1 <= rank)%Z → (rank <= total)%Z →
  labelNational rank (percentile (computeStanding rank total))
  = labelWorld rank (percentile (computeStanding rank total)).
Proof.
  intros H1 H2.
  apply labels_agree_positive.
  destruct (Qlt_le_dec 0 (percentile (computeStanding rank total))) as [|Hle];
    [done|].
  assert (percentile (computeStanding rank total) == 0) as Hz.
  { apply Qle_antisym; [done|].
    rewrite computeStanding_ranked by lia. apply clamped_bounds. }
  apply zero_percentile_beyond_list in Hz; lia.
Qed.

Lemma labelNational_on_list_witness :
  labelNational 3 (percentile (computeStanding 3 10))
  = labelWorld 3 (percentile (computeStanding 3 10)).
Proof. apply (labelNational_on_list 3 10); lia. Defined.

End LabelFacts.

(** ** Time formatting *)

Section FormatTime.

Local Open Scope Q_scope.

Lemma two_digit_shape_all :
  forallb two_digit_shape (Z.of_nat <$> seq 0 100) = true.
Proof. vm_compute. reflexivity. Qed.

Lemma two_digit_shape_below_100 (k : Z) :
  (0 <= k < 100)%Z → two_digit_shape k = true.
Proof.
  intros Hk. pose proof two_digit_shape_all as H.
  rewrite forallb_forall in H. apply H.
  apply in_map_iff. exists (Z.to_nat k). split; [lia|].
  apply in_seq. lia.
Qed.

(** Padding the seconds field to five characters pads its integer part to
    two. *)
Lemma padStart_seconds (k : Z) (c1 c2 : ascii) :
  (0 <= k < 100)%Z →
  padStart0 5 (digits k +:+ "." +:+ String c1 (String c2 EmptyString))
  = (padStart0 2 (digits k) +:+ "." +:+ String c1 (String c2 EmptyString))%string.
Proof.
  intros Hk. pose proof (two_digit_shape_below_100 k Hk) as H.
  unfold two_digit_shape in H.
  destruct (digits k) as [|d1 [|d2 [|]]]; try done.
Qed.

Lemma padStart_two_digits (k : Z) :
  (0 <= k < 100)%Z →
  ∃ c1 c2, padStart0 2 (digits k) = String c1 (String c2 EmptyString).
Proof.
  intros Hk. pose proof (two_digit_shape_below_100 k Hk) as H.
  unfold two_digit_shape in H.
  destruct (digits k) as [|d1 [|d2 [|]]]; try done; cbn; eauto.
Qed.

(** [toFixed(2)] of a non-negative whole number of hundredths prints it
    without rounding. *)
Lemma toFixed2_hundredths (n : Z) :
  (0 <= n)%Z →
  toFixed2 (inject_Z n / 100)
  = (digits (n / 100) +:+ "." +:+ padStart0 2 (digits (n mod 100)))%string.
Proof.
  intros Hn. unfold toFixed2.
  assert (0 <= inject_Z n) as Hq.
  { change 0 with (inject_Z 0). by rewrite <- Zle_Qle. }
  assert (0 <= inject_Z n / 100) as Hx.
  { unfold Qdiv. change (/ 100) with (1 # 100). lra. }
  rewrite Qle_bool_true by done.
  assert (Qfloor (Qabs (inject_Z n / 100) * 100 + (1 # 2)) = n) as ->; [|done].
  rewrite Qabs_pos by done.
  assert (inject_Z n / 100 * 100 + (1 # 2) == (2 * n + 1) # 2) as ->.
  { rewrite (Qmake_Qdiv (2 * n + 1) 2), inject_Z_plus, inject_Z_mult.
    change (inject_Z 2) with 2. change (inject_Z 1) with 1.
    change (inject_Z (Z.pos 2)) with 2. field. }
  cbn [Qfloor]. symmetry. apply (Z.div_unique _ _ _ 1); lia.
Qed.

Lemma string_append_assoc (s t u : string) :
  ((s +:+ t) +:+ u = s +:+ (t +:+ u))%string.
Proof.
  induction s as [|c s IH]; [done|].
  change (String c ((s +:+ t) +:+ u) = String c (s +:+ (t +:+ u)))%string.
  by rewrite IH.
Qed.

(** Division by the constants of [formatTime], as multiplications that
    linear arithmetic understands. *)
Ltac constant_divisions :=
  unfold Qdiv; change (/ 100) with (1 # 100); change (/ 60) with (1 # 60).

(** X8: Below one minute a non-negative time prints as seconds, a point, and
    exactly the last two digits of the centiseconds, followed by "s". *)
Theorem formatTime_seconds (centiseconds : Z) :
  (0 <= centiseconds < 6000)%Z →
  formatTime centiseconds
  = (digits (centiseconds / 100) +:+ "."
     +:+ padStart0 2 (digits (centiseconds mod 100)) +:+ "s")%string.
Proof.
  intros Hc. unfold formatTime.
  assert (inject_Z centiseconds < inject_Z 6000) as Hlt.
  { rewrite <- Zlt_Qlt. lia. }
  change (inject_Z 6000) with 6000 in Hlt.
  rewrite Qle_bool_false by (constant_divisions; lra). cbn [negb].
  rewrite toFixed2_hundredths by lia.
  by rewrite !string_append_assoc.
Qed.

Lemma formatTime_seconds_witness :
  formatTime 1234
  = (digits (1234 / 100) +:+ "."
     +:+ padStart0 2 (digits (1234 mod 100)) +:+ "s")%string.
Proof. apply (formatTime_seconds 1234). lia. Defined.

(** X9: From one minute on a time prints as minutes, a colon, the seconds
    padded to two digits, a point and the last two digits of the
    centiseconds: the seconds field is never "60" or longer. *)
Theorem formatTime_minutes (centiseconds : Z) :
  (6000 <= centiseconds)%Z →
  formatTime centiseconds
  = (digits (centiseconds / 6000) +:+ ":"
     +:+ padStart0 2 (digits (centiseconds mod 6000 / 100)) +:+ "."
     +:+ padStart0 2 (digits (centiseconds mod 100)))%string.
Proof.
  intros Hc. unfold formatTime.
  assert (inject_Z 6000 <= inject_Z centiseconds) as Hle.
  { by rewrite <- Zle_Qle. }
  change (inject_Z 6000) with 6000 in Hle.
  rewrite Qle_bool_true by (constant_divisions; lra). cbn [negb].
  assert (inject_Z centiseconds / 100 / 60 == centiseconds # 6000) as Hm.
  { rewrite (Qmake_Qdiv centiseconds 6000).
    change (inject_Z (Z.pos 6000)) with 6000. field. }
  assert (Qfloor (inject_Z centiseconds / 100 / 60) = (centiseconds / 6000)%Z)
    as Hfloor by (by rewrite Hm).
  rewrite Hfloor.
  pose proof (Z.mod_pos_bound centiseconds 6000 ltac:(lia)) as Hb.
  assert (0 <= inject_Z (centiseconds mod 6000)) as Hb'.
  { change 0 with (inject_Z 0). rewrite <- Zle_Qle. lia. }
  assert (remainder (inject_Z centiseconds / 100) 60
          == inject_Z (centiseconds mod 6000) / 100) as Hrem.
  { unfold remainder, truncate.
    rewrite Qle_bool_true by (constant_divisions; lra). rewrite Hfloor.
    rewrite (Z.mod_eq centiseconds 6000) by lia.
    unfold Z.sub. rewrite inject_Z_plus, inject_Z_opp, inject_Z_mult.
    change (inject_Z 6000) with 6000. field. }
  assert (toFixed2 (remainder (inject_Z centiseconds / 100) 60)
          = toFixed2 (inject_Z (centiseconds mod 6000) / 100)) as ->.
  { unfold toFixed2. by rewrite Hrem. }
  rewrite toFixed2_hundredths by lia.
  rewrite (Z.mod_mod_divide centiseconds 6000 100) by (exists 60%Z; lia).
  destruct (padStart_two_digits (centiseconds mod 100)) as (c1 & c2 & ->).
  { apply Z.mod_pos_bound. lia. }
  rewrite padStart_seconds; [done|].
  split; [apply Z.div_pos; lia|].
  apply Z.div_lt_upper_bound; lia.
Qed.

Lemma formatTime_minutes_witness :
  formatTime 7505
  = (digits (7505 / 6000) +:+ ":"
     +:+ padStart0 2 (digits (7505 mod 6000 / 100)) +:+ "."
     +:+ padStart0 2 (digits (7505 mod 100)))%string.
Proof. apply (formatTime_minutes 7505). lia. Defined.

Example formatTime_examples :
  formatTime 5 = "0.05s"%string ∧ formatTime 5999 = "59.99s"%string ∧
  formatTime 6000 = "1:00.00"%string ∧ formatTime 11999 = "1:59.99"%string.
Proof. vm_compute. done. Qed.

End FormatTime.

(** ** What the payload transformation stores *)

Section Records.

Implicit Types (m : gmap string PersonalRecord) (l : list RawRecord)
  (e : string) (player : RawPlayer).

Lemma lastEntry_nil e : lastEntry e [] = None.
Proof. done. Qed.

Lemma lastEntry_snoc e l (r : RawRecord) :
  lastEntry e (l ++ [r])
  = if decide (eventId r = e) then Some r else lastEntry e l.
Proof.
  unfold lastEntry. rewrite filter_app, filter_cons, filter_nil.
  case_decide; [by rewrite last_snoc|by rewrite app_nil_r].
Qed.

Lemma lastEntry_is_Some e l : is_Some (lastEntry e l) ↔ e ∈ eventId <$> l.
Proof.
  induction l as [|r l IH] using rev_ind.
  - rewrite lastEntry_nil, fmap_nil. split; [by intros [? ?]|by intros ?%elem_of_nil].
  - rewrite lastEntry_snoc, fmap_app, elem_of_app, <- IH. cbn.
    rewrite list_elem_of_singleton. case_decide as Hd.
    + split; [by right|by eexists].
    + split; [by left|]. intros [?|?]; [done|congruence].
Qed.

Lemma lookup_foldl_addSingle m l e :
  foldl addSingle m l !! e
  = match lastEntry e l with
    | Some r => Some (mkPersonalRecord (Some (rankInfo r)) (m !! e ≫= average))
    | None => m !! e
    end.
Proof.
  induction l as [|r l IH] using rev_ind; [done|].
  rewrite foldl_app, lastEntry_snoc. cbn [foldl]. unfold addSingle at 1.
  rewrite lookup_insert. case_decide as Hd; [|done].
  subst e. rewrite IH. do 2 f_equal.
  destruct (lastEntry (eventId r) l); [done|].
  by destruct (m !! eventId r).
Qed.

Lemma lookup_foldl_addAverage m l e :
  foldl addAverage m l !! e
  = match lastEntry e l with
    | Some r => Some (mkPersonalRecord (m !! e ≫= single) (Some (rankInfo r)))
    | None => m !! e
    end.
Proof.
  induction l as [|r l IH] using rev_ind; [done|].
  rewrite foldl_app, lastEntry_snoc. cbn [foldl]. unfold addAverage at 1.
  rewrite lookup_insert. case_decide as Hd; [|done].
  subst e. rewrite IH. f_equal. f_equal.
  destruct (lastEntry (eventId r) l); [done|].
  by destruct (m !! eventId r).
Qed.

Lemma lookup_collectRecords player e :
  collectRecords player !! e
  = match lastEntry e (singleEntries player),
          lastEntry e (averageEntries player) with
    | None, None => None
    | s, a => Some (mkPersonalRecord (rankInfo <$> s) (rankInfo <$> a))
    end.
Proof.
  unfold collectRecords, singleEntries, averageEntries.
  destruct (player_rank player) as [[ss avs]|]; [|done].
  cbn [singles averages mbind option_bind].
  destruct ss as [ss|], avs as [avs|]; cbn [default];
    rewrite ?bool_decide_eq_false_2 by (by intros [? ?]);
    rewrite ?bool_decide_eq_true_2 by (by eexists);
    cbn [orb]; unfold id; try done;
    rewrite lookup_foldl_addAverage, lookup_foldl_addSingle, lookup_empty;
    rewrite ?lastEntry_nil;
    by repeat destruct (lastEntry _ _).
Qed.

(** X10: The record stored for an event holds the last single entry and the
    last average entry the payload lists for it: the two lists are merged
    per event, a repeated entry replaces the earlier one, and an event
    without entries is absent. *)
Theorem collectRecords_lookup player e :
  collectRecords player !! e
  = match lastEntry e (singleEntries player),
          lastEntry e (averageEntries player) with
    | None, None => None
    | s, a => Some (mkPersonalRecord (rankInfo <$> s) (rankInfo <$> a))
    end.
Proof. apply lookup_collectRecords. Qed.

Lemma usableRecords_entries player :
  usableRecords player = singleEntries player ++ averageEntries player.
Proof.
  unfold usableRecords, singleEntries, averageEntries.
  by destruct (player_rank player).
Qed.

(** X11: The events of the transformed player are exactly the event ids that
    occur in the payload's single or average entries. *)
Theorem collectRecords_events player :
  dom (collectRecords player)
  = list_to_set (eventId <$> usableRecords player).
Proof.
  apply set_eq. intros e.
  rewrite elem_of_dom, lookup_collectRecords, elem_of_list_to_set.
  rewrite usableRecords_entries, fmap_app, elem_of_app, <- !lastEntry_is_Some.
  destruct (lastEntry e (singleEntries player)),
    (lastEntry e (averageEntries player)); cbn.
  - split; [by left|by eexists].
  - split; [by left|by eexists].
  - split; [by right|by eexists].
  - split; [by intros [? ?]|by intros [[? ?]|[? ?]]].
Qed.

Lemma fetched_records (player : option RawPlayer) avatarUrl info :
  fetchStats player avatarUrl = inr info ∨ fetchPlayerData player avatarUrl = inr info →
  ∃ p, player = Some p ∧ truthy_string (player_name p) = true
       ∧ info = transformedPlayer p avatarUrl.
Proof.
  unfold fetchStats, fetchPlayerData.
  destruct player as [p|]; [|by intros [?|?]].
  destruct (truthy_string (player_name p)) eqn:Hname; cbn [negb];
    [|by intros [?|?]].
  destruct (length _ =? 0)%nat; intros [H|H]; try done;
    injection H as <-; by exists p.
Qed.

(** X12: Every record of a fetched player has a single or an average result:
    neither page ever stores an event with no result at all. *)
Theorem fetched_record_has_result (player : option RawPlayer) avatarUrl info e
    (r : PersonalRecord) :
  fetchStats player avatarUrl = inr info ∨ fetchPlayerData player avatarUrl = inr info →
  personal_records info !! e = Some r →
  is_Some (single r) ∨ is_Some (average r).
Proof.
  intros (p & _ & _ & ->)%fetched_records. cbn [personal_records transformedPlayer].
  rewrite lookup_collectRecords.
  destruct (lastEntry e (singleEntries p)), (lastEntry e (averageEntries p));
    intros [= <-]; cbn; eauto.
Qed.

Lemma fetched_record_has_result_witness :
  is_Some (single (mkPersonalRecord
                     (Some (mkRankInfo 300 (Some 7) (Some 2) (Some 1))) None))
  ∨ is_Some (average (mkPersonalRecord
                        (Some (mkRankInfo 300 (Some 7) (Some 2) (Some 1))) None)).
Proof.
  apply (fetched_record_has_result (Some payloadC) None
           (transformedPlayer payloadC None) "222").
  - right. reflexivity.
  - vm_compute. reflexivity.
Defined.

(** X13: The analyzer accepts a payload exactly when it has a non-empty name
    and at least one single or average entry, and then shows the
    transformed player; whatever the analyzer accepts, the comparison page
    returns unchanged. *)
Theorem fetchStats_accepts_iff (player : RawPlayer) avatarUrl info :
  (fetchStats (Some player) avatarUrl = inr info
   ↔ truthy_string (player_name player) = true
     ∧ usableRecords player ≠ []
     ∧ info = transformedPlayer player avatarUrl) ∧
  (fetchStats (Some player) avatarUrl = inr info →
   fetchPlayerData (Some player) avatarUrl = inr info).
Proof.
  unfold fetchStats, fetchPlayerData.
  destruct (truthy_string (player_name player)); cbn [negb].
  - destruct (length _ =? 0)%nat eqn:E.
    + apply keys_empty_iff in E. cbn [personal_records transformedPlayer] in E.
      apply collectRecords_empty_iff in E.
      split; [|done]. split; [done|]. by intros (_ & ? & _).
    + assert (usableRecords player ≠ []) as Hne.
      { intros H%collectRecords_empty_iff.
        assert ((length (keys (personal_records
                                 (transformedPlayer player avatarUrl))) =? 0)%nat
                = true) as E' by (by apply keys_empty_iff).
        congruence. }
      split; [|done]. split.
      * by intros [= <-].
      * by intros (_ & _ & ->).
  - split; [|done]. split; [done|]. by intros (? & _).
Qed.

End Records.

(** ** The country code *)

Section CountryCode.

Lemma lower_ascii_not_upper (c : ascii) : not_upper (lower_ascii c).
Proof.
  unfold not_upper, lower_ascii.
  destruct ((65 <=? nat_of_ascii c)%nat && (nat_of_ascii c <=? 90)%nat) eqn:E.
  - apply andb_true_iff in E as [H1%Nat.leb_le H2%Nat.leb_le].
    rewrite nat_ascii_embedding by lia. lia.
  - apply andb_false_iff in E as [H%Nat.leb_gt|H%Nat.leb_gt]; lia.
Qed.

Lemma toLowerCase_not_upper (s : string) :
  Forall not_upper (list_ascii_of_string (toLowerCase s)).
Proof.
  induction s as [|c s IH]; cbn; constructor; [apply lower_ascii_not_upper|done].
Qed.

Lemma toLowerCase_length (s : string) :
  String.length (toLowerCase s) = String.length s.
Proof. induction s as [|c s IH]; cbn; [done|by rewrite IH]. Qed.

Lemma truthy_string_length (o : option string) :
  truthy_string o = true → (0 < String.length (default ""%string o))%nat.
Proof. destruct o as [[|c s]|]; cbn; try done. lia. Qed.

Lemma countryIso_nonempty (player : RawPlayer) :
  (0 < String.length (countryIso player))%nat.
Proof.
  unfold countryIso.
  destruct (truthy_string (player_country player)) eqn:E1.
  - destruct (player_country player) as [[|c s]|]; cbn in *; try done; lia.
  - destruct (truthy_string (player_countryIso2 player)) eqn:E2.
    + destruct (player_countryIso2 player) as [[|c s]|]; cbn in *; try done; lia.
    + cbn. lia.
Qed.

(** X14: The [iso2] code of a transformed player, which names the flag image:
    it is never empty, it contains no upper-case ASCII letter, and it is
    "xx" when the payload has neither [country] nor [countryIso2]. *)
Theorem iso2_of_transformedPlayer (player : RawPlayer) avatarUrl :
  let code := iso2 (country (transformedPlayer player avatarUrl)) in
  code ≠ ""%string ∧
  Forall not_upper (list_ascii_of_string code) ∧
  (truthy_string (player_country player) = false →
   truthy_string (player_countryIso2 player) = false →
   code = "xx"%string).
Proof.
  cbn [iso2 country transformedPlayer]. repeat split.
  - intros H. pose proof (countryIso_nonempty player) as Hlen.
    rewrite <- toLowerCase_length, H in Hlen. cbn in Hlen. lia.
  - apply toLowerCase_not_upper.
  - intros H1 H2. unfold countryIso. by rewrite H1, H2.
Qed.

End CountryCode.

(** ** More on the comparator and the tallies *)

Section TallyFacts.

Implicit Types (a b : PlayerInfo) (e : string) (w : Winner).

Lemma getBetterRank_flip (r1 r2 : option Z) :
  getBetterRank r2 r1 = swap (getBetterRank r1 r2).
Proof.
  unfold getBetterRank.
  destruct (truthy r1), (truthy r2); cbn; try done.
  rewrite !Z.gtb_ltb.
  destruct (Z.ltb_spec (default 0 r1) (default 0 r2)),
    (Z.ltb_spec (default 0 r2) (default 0 r1)); cbn; try done; lia.
Qed.

Lemma getBetterRank_player1 (r1 r2 : option Z) :
  getBetterRank r1 r2 = player1
  ↔ truthy r1 = true ∧ (truthy r2 = false ∨ default 0 r1 < default 0 r2).
Proof.
  unfold getBetterRank.
  destruct (truthy r1), (truthy r2); cbn; try (split; [done|]; intros [? ?]; done).
  - rewrite Z.gtb_ltb.
    destruct (Z.ltb_spec (default 0 r1) (default 0 r2)).
    + split; [|done]. intros _. split; [done|by right].
    + destruct (Z.ltb_spec (default 0 r2) (default 0 r1));
        (split; [done|]); intros [_ [?|?]]; try done; lia.
  - split; [|done]. intros _. split; [done|by left].
Qed.

(** X15: Exchanging the two sides exchanges the result. *)
Theorem getBetterRank_swap (r1 r2 : option Z) :
  getBetterRank r2 r1 = swap (getBetterRank r1 r2).
Proof. apply getBetterRank_flip. Qed.

(** X16: Winning is transitive: if the first rank beats the second and the
    second beats the third, the first beats the third. *)
Theorem getBetterRank_transitive (r1 r2 r3 : option Z) :
  getBetterRank r1 r2 = player1 → getBetterRank r2 r3 = player1 →
  getBetterRank r1 r3 = player1.
Proof.
  rewrite !getBetterRank_player1.
  intros [H1 [H2|H2]] [H3 H4]; [congruence|].
  split; [done|]. destruct H4 as [?|?]; [by left|right; lia].
Qed.

Lemma getBetterRank_transitive_witness :
  getBetterRank (Some 3) None = player1.
Proof.
  apply (getBetterRank_transitive (Some 3) (Some 8) None); reflexivity.
Defined.

Lemma disciplinePoint_flip w (r1 r2 : option RankInfo) :
  disciplinePoint w r2 r1 = disciplinePoint (swap w) r1 r2.
Proof.
  unfold disciplinePoint. destruct r1 as [x|], r2 as [y|]; try done.
  rewrite (getBetterRank_flip (world_ranking x) (world_ranking y)).
  destruct (getBetterRank _ _), w; by repeat case_decide.
Qed.

Lemma fairAward_flip w a b e : fairAward w b a e = fairAward (swap w) a b e.
Proof.
  unfold fairAward, comparisonPoints.
  destruct (personal_records a !! e), (personal_records b !! e); try done.
  f_equal; apply disciplinePoint_flip.
Qed.

Lemma unfairAward_flip w a b e : unfairAward w b a e = unfairAward (swap w) a b e.
Proof.
  unfold unfairAward, comparisonPoints.
  destruct (personal_records a !! e), (personal_records b !! e); try done.
  - f_equal; apply disciplinePoint_flip.
  - by destruct w.
  - by destruct w.
Qed.

Lemma sum_list_with_ext_in {A} (f g : A → nat) (l : list A) :
  (∀ x, x ∈ l → f x = g x) → sum_list_with f l = sum_list_with g l.
Proof.
  induction l as [|x l IH]; intros H; [done|]. cbn.
  rewrite (H x) by left. rewrite IH; [done|].
  intros y Hy. apply H. by right.
Qed.

Lemma sum_list_with_le {A} (f g : A → nat) (l : list A) :
  (∀ x, (f x ≤ g x)%nat) → (sum_list_with f l ≤ sum_list_with g l)%nat.
Proof.
  intros H. induction l as [|x l IH]; cbn; [done|]. specialize (H x). lia.
Qed.

Lemma sum_list_with_pair_bound {A} (f g : A → nat) (k : nat) (l : list A) :
  (∀ x, (f x + g x ≤ k)%nat) →
  (sum_list_with f l + sum_list_with g l ≤ k * length l)%nat.
Proof.
  intros H. induction l as [|x l IH]; cbn; [lia|]. specialize (H x). lia.
Qed.

Lemma getAllEvents_comm a b :
  getAllEvents (Some b) (Some a) = getAllEvents (Some a) (Some b).
Proof.
  unfold getAllEvents. do 2 f_equal.
  rewrite !(left_id_L ∅ (∪)). apply (comm_L (∪)).
Qed.

Lemma sharedEvents_comm a b : sharedEvents b a = sharedEvents a b.
Proof. unfold sharedEvents. apply (comm_L (∩)). Qed.

Lemma verdict_swapTally (t : Tally) : verdict (swapTally t) = swap (verdict t).
Proof.
  unfold verdict, swapTally. cbn [points1 points2].
  destruct (Nat.ltb_spec (points1 t) (points2 t)),
    (Nat.ltb_spec (points2 t) (points1 t)); cbn; try done; lia.
Qed.

(** X17: Comparing the players the other way round exchanges the totals, keeps
    both event lists and exchanges both verdicts: who wins does not depend
    on the order in which the players are entered. *)
Theorem calculatePoints_swap a b :
  calculatePoints (Some b) (Some a) = swapPoints (calculatePoints (Some a) (Some b)) ∧
  verdict (fair (calculatePoints (Some b) (Some a)))
  = swap (verdict (fair (calculatePoints (Some a) (Some b)))) ∧
  verdict (unfair (calculatePoints (Some b) (Some a)))
  = swap (verdict (unfair (calculatePoints (Some a) (Some b)))).
Proof.
  assert (calculatePoints (Some b) (Some a)
          = swapPoints (calculatePoints (Some a) (Some b))) as ->;
    [|by rewrite <- !verdict_swapTally].
  rewrite !calculatePoints_sums. cbv zeta.
  rewrite getAllEvents_comm, sharedEvents_comm.
  unfold swapPoints, swapTally. cbn [fair unfair points1 points2 events].
  rewrite (sum_list_with_ext_in (fairAward player1 b a) (fairAward player2 a b)),
    (sum_list_with_ext_in (fairAward player2 b a) (fairAward player1 a b)),
    (sum_list_with_ext_in (unfairAward player1 b a) (unfairAward player2 a b)),
    (sum_list_with_ext_in (unfairAward player2 b a) (unfairAward player1 a b));
    [done|intros e _..].
  - apply (unfairAward_flip player2).
  - apply (unfairAward_flip player1).
  - apply (fairAward_flip player2).
  - apply (fairAward_flip player1).
Qed.

Lemma presencePoints_le_2 (r : PersonalRecord) : (presencePoints r ≤ 2)%nat.
Proof. unfold presencePoints. destruct (single r), (average r); cbn; lia. Qed.

Lemma comparisonPoints_le_2 (ea eb : PersonalRecord) :
  (comparisonPoints player1 ea eb + comparisonPoints player2 ea eb ≤ 2)%nat.
Proof.
  unfold comparisonPoints.
  pose proof (discipline_one_point (single ea) (single eb)).
  pose proof (discipline_one_point (average ea) (average eb)). lia.
Qed.

Lemma fairAward_le_unfairAward w a b e :
  (fairAward w a b e ≤ unfairAward w a b e)%nat.
Proof.
  unfold fairAward, unfairAward.
  destruct (personal_records a !! e), (personal_records b !! e); lia.
Qed.

(** Neither side has more fair points than unfair points. *)
Theorem fair_points_le_unfair a b :
  let r := calculatePoints (Some a) (Some b) in
  (points1 (fair r) ≤ points1 (unfair r))%nat ∧
  (points2 (fair r) ≤ points2 (unfair r))%nat.
Proof.
  rewrite calculatePoints_sums. cbn [fair unfair points1 points2].
  split; apply sum_list_with_le; intros e; apply fairAward_le_unfairAward.
Qed.

(** X19: Under either policy an event contributes at most two points in all,
    one per discipline: the two totals together never exceed twice the
    number of events listed. *)
Theorem points_at_most_two_per_event a b :
  let r := calculatePoints (Some a) (Some b) in
  (points1 (fair r) + points2 (fair r) ≤ 2 * length (events (fair r)))%nat ∧
  (points1 (unfair r) + points2 (unfair r) ≤ 2 * length (events (unfair r)))%nat.
Proof.
  rewrite calculatePoints_sums. cbn [fair unfair points1 points2 events].
  split.
  - rewrite !(fair_sum_shared a b _ (getAllEvents _ _)).
    apply sum_list_with_pair_bound. intros e. unfold fairAward.
    destruct (personal_records a !! e), (personal_records b !! e); try (cbn; lia).
    apply comparisonPoints_le_2.
  - apply sum_list_with_pair_bound. intros e. unfold unfairAward.
    destruct (personal_records a !! e) as [ea|], (personal_records b !! e) as [eb|];
      try (cbn; lia).
    + apply comparisonPoints_le_2.
    + pose proof (presencePoints_le_2 ea). lia.
    + pose proof (presencePoints_le_2 eb). lia.
Qed.

#[local] Instance code_unit_le_trans : Transitive code_unit_le.
Proof. change (Transitive String.le). apply _. Qed.

#[local] Instance code_unit_le_antisym : AntiSymm (=) code_unit_le.
Proof. change (AntiSymm (=) String.le). apply _. Qed.

Lemma StronglySorted_filter {A} (R : relation A) (P : A → Prop)
    `{∀ x, Decision (P x)} (l : list A) :
  StronglySorted R l → StronglySorted R (filter P l).
Proof.
  induction 1 as [|x l Hl IH Hx]; [constructor|].
  rewrite filter_cons. case_decide; [|done].
  constructor; [done|].
  apply Forall_forall. intros y [_ Hy]%list_elem_of_filter.
  rewrite Forall_forall in Hx. by apply Hx.
Qed.

(** X20: The two event lists: the unfair list has every event of either player
    once, in ascending code-unit order; the fair list is the sub-list of
    the events both players have, in the same order; their lengths are the
    sizes of the union and of the intersection of the players' events. *)
Theorem event_lists a b :
  let r := calculatePoints (Some a) (Some b) in
  NoDup (events (unfair r)) ∧
  StronglySorted code_unit_le (events (unfair r)) ∧
  StronglySorted code_unit_le (events (fair r)) ∧
  events (fair r) `sublist_of` events (unfair r) ∧
  length (events (unfair r)) = size (allEvents a b) ∧
  length (events (fair r)) = size (sharedEvents a b) ∧
  (∀ e, e ∈ events (unfair r)
        ↔ e ∈ dom (personal_records a) ∨ e ∈ dom (personal_records b)).
Proof.
  rewrite calculatePoints_sums. cbn [fair unfair events].
  assert (StronglySorted code_unit_le (getAllEvents (Some a) (Some b))) as Hs.
  { unfold getAllEvents. apply (StronglySorted_merge_sort _). }
  repeat split.
  - rewrite getAllEvents_all. apply NoDup_elements.
  - done.
  - by apply StronglySorted_filter.
  - apply sublist_filter.
  - by rewrite getAllEvents_all.
  - by rewrite getAllEvents_shared.
  - rewrite getAllEvents_all, elem_of_elements. unfold allEvents.
    by rewrite elem_of_union.
  - rewrite getAllEvents_all, elem_of_elements. unfold allEvents.
    by rewrite elem_of_union.
Qed.

Lemma sum_list_with_zero_in {A} (f : A → nat) (l : list A) :
  (∀ x, x ∈ l → f x = 0%nat) → sum_list_with f l = 0%nat.
Proof.
  intros H. rewrite (sum_list_with_ext_in f (λ _, 0%nat)) by done.
  by apply sum_list_with_zero.
Qed.

Lemma sum_list_with_add {A} (f g : A → nat) (l : list A) :
  sum_list_with (λ x, f x + g x)%nat l
  = (sum_list_with f l + sum_list_with g l)%nat.
Proof. induction l as [|x l IH]; cbn; [done|]. rewrite IH. lia. Qed.

(** The presence points of the first player: the results of the events
    the second player does not have. *)
Lemma presence_sum a b :
  sum_list_with
    (λ e, match personal_records a !! e, personal_records b !! e with
          | Some ea, None => presencePoints ea
          | _, _ => 0%nat
          end)
    (elements (dom (personal_records a) ∪ dom (personal_records b)))
  = sum_list_with
      (λ e, from_option presencePoints 0%nat (personal_records a !! e))
      (elements (dom (personal_records a) ∖ dom (personal_records b))).
Proof.
  set (A := dom (personal_records a)). set (B := dom (personal_records b)).
  assert (A ∪ B = (A ∖ B) ∪ B) as ->.
  { apply set_eq. intros e. rewrite !elem_of_union, elem_of_difference.
    destruct (decide (e ∈ B)); tauto. }
  rewrite elements_disj_union
    by (apply elem_of_disjoint; intros e [_ ?]%elem_of_difference ?; done).
  rewrite sum_list_with_app.
  rewrite (sum_list_with_zero_in _ (elements B)).
  - rewrite Nat.add_0_r. apply sum_list_with_ext_in.
    intros e [He1 He2]%elem_of_elements%elem_of_difference.
    apply elem_of_dom in He1 as [ea ->].
    apply not_elem_of_dom in He2 as ->. done.
  - intros e [eb ->]%elem_of_elements%elem_of_dom.
    by destruct (personal_records a !! e).
Qed.

(** X18: The unfair total of a side is its fair total plus one point for every
    result it has in an event the other side lacks. *)
Theorem unfair_points_decomposition a b :
  let r := calculatePoints (Some a) (Some b) in
  points1 (unfair r)
  = (points1 (fair r)
     + sum_list_with
         (λ e, from_option presencePoints 0%nat (personal_records a !! e))
         (elements (dom (personal_records a) ∖ dom (personal_records b))))%nat ∧
  points2 (unfair r)
  = (points2 (fair r)
     + sum_list_with
         (λ e, from_option presencePoints 0%nat (personal_records b !! e))
         (elements (dom (personal_records b) ∖ dom (personal_records a))))%nat.
Proof.
  rewrite calculatePoints_sums. cbn [fair unfair points1 points2].
  rewrite <- (presence_sum a b), <- (presence_sum b a).
  rewrite (comm_L (∪) (dom (personal_records b))).
  rewrite <- !(getAllEvents_all a b), <- !sum_list_with_add.
  split; apply sum_list_with_ext_in; intros e _; unfold unfairAward, fairAward;
    destruct (personal_records a !! e), (personal_records b !! e); lia.
Qed.

(** X21: Players without a common event: the fair tally is empty, and in the
    unfair tally each side scores one point for every result it has. *)
Theorem disjoint_events_points a b :
  sharedEvents a b = ∅ →
  let r := calculatePoints (Some a) (Some b) in
  fair r = mkTally 0 0 [] ∧
  points1 (unfair r)
  = sum_list_with (λ e, from_option presencePoints 0%nat (personal_records a !! e))
      (elements (dom (personal_records a))) ∧
  points2 (unfair r)
  = sum_list_with (λ e, from_option presencePoints 0%nat (personal_records b !! e))
      (elements (dom (personal_records b))).
Proof.
  intros Hd. rewrite calculatePoints_sums. cbn [fair unfair points1 points2].
  assert (dom (personal_records a) ## dom (personal_records b)) as Hdisj.
  { apply disjoint_intersection_L. apply Hd. }
  assert (getAllEvents (Some a) (Some b)
          ≡ₚ elements (dom (personal_records a))
             ++ elements (dom (personal_records b))) as Hp.
  { rewrite getAllEvents_all. unfold allEvents. by apply elements_disj_union. }
  split; [|split].
  - rewrite !(fair_sum_shared a b _ (getAllEvents _ _)).
    assert (filter (λ x, x ∈ sharedEvents a b) (getAllEvents (Some a) (Some b)) = [])
      as ->; [|done].
    apply Permutation_nil_r. rewrite getAllEvents_shared, Hd.
    by rewrite elements_empty.
  - rewrite Hp, sum_list_with_app.
    rewrite (sum_list_with_zero_in _ (elements (dom (personal_records b)))).
    + rewrite Nat.add_0_r. apply sum_list_with_ext_in.
      intros e He%elem_of_elements.
      assert (personal_records b !! e = None) as Hb.
      { apply not_elem_of_dom. set_solver. }
      apply elem_of_dom in He as [ea Hea].
      unfold unfairAward. by rewrite Hea, Hb.
    + intros e He%elem_of_elements.
      assert (personal_records a !! e = None) as Ha.
      { apply not_elem_of_dom. set_solver. }
      apply elem_of_dom in He as [eb Heb].
      unfold unfairAward. by rewrite Ha, Heb.
  - rewrite Hp, sum_list_with_app.
    rewrite (sum_list_with_zero_in _ (elements (dom (personal_records a)))).
    + cbn. apply sum_list_with_ext_in.
      intros e He%elem_of_elements.
      assert (personal_records a !! e = None) as Ha.
      { apply not_elem_of_dom. set_solver. }
      apply elem_of_dom in He as [eb Heb].
      unfold unfairAward. by rewrite Ha, Heb.
    + intros e He%elem_of_elements.
      assert (personal_records b !! e = None) as Hb.
      { apply not_elem_of_dom. set_solver. }
      apply elem_of_dom in He as [ea Hea].
      unfold unfairAward. by rewrite Hea, Hb.
Qed.

Lemma disjoint_events_points_witness :
  let r := calculatePoints (Some competitorA) (Some competitorB) in
  fair r = mkTally 0 0 [] ∧
  points1 (unfair r)
  = sum_list_with
      (λ e, from_option presencePoints 0%nat (personal_records competitorA !! e))
      (elements (dom (personal_records competitorA))) ∧
  points2 (unfair r)
  = sum_list_with
      (λ e, from_option presencePoints 0%nat (personal_records competitorB !! e))
      (elements (dom (personal_records competitorB))).
Proof.
  apply (disjoint_events_points competitorA competitorB).
  vm_compute. reflexivity.
Defined.

End TallyFacts.

(** ** The statistics of an event *)

Section EventStatistics.

Local Open Scope Q_scope.

Lemma computeStanding_ok (rank total : Z) : standing_ok (computeStanding rank total).
Proof.
  unfold standing_ok, computeStanding.
  destruct (Z.gtb_spec total 0) as [Ht|Ht]; cbn [andb];
    [destruct (Z.gtb_spec rank 0) as [Hr|Hr]|].
  - cbn [percentile percentDownList totalCompetitors calculateStats].
    assert (0 < inject_Z total) by (by apply inject_Z_pos).
    assert (0 < inject_Z rank) by (by apply inject_Z_pos).
    pose proof (clamped_bounds
                  ((1 - (inject_Z rank - 1) / inject_Z total) * 100)) as [? ?].
    repeat split; try done; try lia.
    + assert (0 <= inject_Z rank / inject_Z total); [|lra].
      apply Qle_shift_div_l; [done|lra].
    + intros [= Heq _]. lia.
  - cbn. repeat split; try done; lia.
  - cbn. repeat split; try done; lia.
Qed.

Lemma unranked_standing_slot (rank total : Z) :
  (rank <= 0)%Z ∨ (total <= 0)%Z → computeStanding rank total = placeholder.
Proof.
  intros H. unfold computeStanding.
  destruct (Z.gtb_spec total 0); [|reflexivity].
  destruct (Z.gtb_spec rank 0); [lia|reflexivity].
Qed.

(** Each slot is the standing of its own rank against its own total. *)
Lemma eventStats_slots (eventRecord : PersonalRecord) (responses : Responses) :
  let s := eventStats eventRecord responses in
  nr (single_stats s)
  = computeStanding (rankOrZero (single eventRecord) national_ranking)
      (totalOf (nationalSingleResponse responses)) ∧
  cr (single_stats s)
  = computeStanding (rankOrZero (single eventRecord) continental_ranking)
      (totalOf (continentalSingleResponse responses)) ∧
  wr (single_stats s)
  = computeStanding (rankOrZero (single eventRecord) world_ranking)
      (totalOf (worldSingleResponse responses)) ∧
  nr (average_stats s)
  = computeStanding (rankOrZero (average eventRecord) national_ranking)
      (totalOf (nationalAverageResponse responses)) ∧
  cr (average_stats s)
  = computeStanding (rankOrZero (average eventRecord) continental_ranking)
      (totalOf (continentalAverageResponse responses)) ∧
  wr (average_stats s)
  = computeStanding (rankOrZero (average eventRecord) world_ranking)
      (totalOf (worldAverageResponse responses)).
Proof. by repeat split. Qed.

(** X22: Whatever the payload and the six responses hold (missing, zero or
    negative ranks and totals included), every region slot of every event
    has a percentile within 0 and 100, a non-negative [percentDownList]
    and total, and a total of 0 exactly when it is the placeholder; and
    there is one entry per event of the player. *)
Theorem allEventsData_slots_ok (records : gmap string PersonalRecord)
    (responses : string → Responses) :
  dom (allEventsData records responses) = dom records ∧
  ∀ e stats, allEventsData records responses !! e = Some stats →
             Forall standing_ok (slots stats).
Proof.
  split.
  - apply set_eq. intros e. unfold allEventsData.
    rewrite !elem_of_dom, map_lookup_imap.
    destruct (records !! e); cbn; split; intros [? ?]; done || by eexists.
  - intros e stats. unfold allEventsData. rewrite map_lookup_imap.
    destruct (records !! e) as [r|]; [|done]. cbn. intros [= <-].
    destruct (eventStats_slots r (responses e)) as (E1 & E2 & E3 & E4 & E5 & E6).
    unfold slots. rewrite E1, E2, E3, E4, E5, E6.
    repeat constructor; apply computeStanding_ok.
Qed.

(** X23: A slot is the placeholder whenever its leaderboard lookup failed, or
    came back without a total, or the player has no result in the
    discipline; the other slots are not affected, since each depends on
    its own response only. *)
Theorem unranked_slots (eventRecord : PersonalRecord) (responses : Responses) :
  Forall (λ '(slot, response, result),
            (response = None ∨ response = Some None ∨ result = None) →
            slot = placeholder)
    (slotSources eventRecord responses).
Proof.
  unfold slotSources.
  destruct (eventStats_slots eventRecord responses)
    as (E1 & E2 & E3 & E4 & E5 & E6).
  cbv zeta. rewrite E1, E2, E3, E4, E5, E6.
  repeat constructor; intros [-> | [-> | ->]];
    apply unranked_standing_slot; (by right) || (by left).
Qed.

End EventStatistics.

(** ** The comparison table against the tallies *)

Section Table.

Implicit Types (a b : PlayerInfo) (e : string) (w : Winner).

(** The rows of an event, by the disciplines either side has. *)
Lemma tableRows_cases a b e :
  tableRows a b e
  = (if bool_decide (is_Some (personal_records a !! e ≫= single)
                     ∨ is_Some (personal_records b !! e ≫= single))
     then [("SINGLE"%string,
            getBetterRank ((personal_records a !! e ≫= single) ≫= world_ranking)
                          ((personal_records b !! e ≫= single) ≫= world_ranking))]
     else [])
    ++ (if bool_decide (is_Some (personal_records a !! e ≫= average)
                        ∨ is_Some (personal_records b !! e ≫= average))
        then [("AVERAGE"%string,
               getBetterRank ((personal_records a !! e ≫= average) ≫= world_ranking)
                             ((personal_records b !! e ≫= average) ≫= world_ranking))]
        else []).
Proof.
  unfold tableRows.
  destruct (personal_records a !! e ≫= single),
    (personal_records b !! e ≫= single),
    (personal_records a !! e ≫= average),
    (personal_records b !! e ≫= average); cbn;
    repeat (rewrite bool_decide_eq_true_2 by (by eexists || (left; by eexists)
                                              || (right; by eexists)));
    repeat (rewrite bool_decide_eq_false_2
              by (by intros [? ?] || by intros [[? ?]|[? ?]]));
    done.
Qed.

Lemma rowsWon_cases a b e w :
  rowsWon w a b e
  = ((if bool_decide (is_Some (personal_records a !! e ≫= single)
                      ∨ is_Some (personal_records b !! e ≫= single))
      then if decide (getBetterRank
                        ((personal_records a !! e ≫= single) ≫= world_ranking)
                        ((personal_records b !! e ≫= single) ≫= world_ranking) = w)
           then 1 else 0
      else 0)
     + (if bool_decide (is_Some (personal_records a !! e ≫= average)
                        ∨ is_Some (personal_records b !! e ≫= average))
        then if decide (getBetterRank
                          ((personal_records a !! e ≫= average) ≫= world_ranking)
                          ((personal_records b !! e ≫= average) ≫= world_ranking) = w)
             then 1 else 0
        else 0))%nat.
Proof.
  unfold rowsWon. rewrite tableRows_cases, filter_app, length_app.
  f_equal; case_bool_decide; try done;
    rewrite filter_cons, filter_nil; cbn [snd]; by case_decide.
Qed.

(** X24: Each side wins at least as many rows of the table as it has fair
    points for the event: the table also compares disciplines that only
    one side has. *)
Theorem fair_points_le_rows_won a b e w :
  (fairAward w a b e ≤ rowsWon w a b e)%nat.
Proof.
  rewrite rowsWon_cases. unfold fairAward, comparisonPoints, disciplinePoint.
  destruct (personal_records a !! e) as [ea|],
    (personal_records b !! e) as [eb|]; try (cbn; lia).
  cbn [mbind option_bind].
  apply Nat.add_le_mono.
  - destruct (single ea) as [x|], (single eb) as [y|]; cbn; lia.
  - destruct (average ea) as [x|], (average eb) as [y|]; cbn; lia.
Qed.

(** X25: An event both players hold, with an average result on the first side
    only: the table shows an AVERAGE row won by the first player, while
    the unfair tally counts the single comparison alone. *)
Theorem one_sided_average_row a b e (ea eb : PersonalRecord) (x : RankInfo) :
  personal_records a !! e = Some ea → personal_records b !! e = Some eb →
  average ea = Some x → truthy (world_ranking x) = true → average eb = None →
  ("AVERAGE"%string, player1) ∈ tableRows a b e ∧
  unfairAward player1 a b e = disciplinePoint player1 (single ea) (single eb) ∧
  fairAward player1 a b e = disciplinePoint player1 (single ea) (single eb).
Proof.
  intros Ha Hb Hx Ht Hy. split; [|split].
  - rewrite tableRows_cases, Ha, Hb. cbn [mbind option_bind].
    rewrite Hx, Hy. cbn [mbind option_bind].
    rewrite (bool_decide_eq_true_2 (is_Some (Some x) ∨ is_Some None))
      by (left; by eexists).
    apply elem_of_app. right.
    unfold getBetterRank. rewrite Ht. cbn. by left.
  - unfold unfairAward, comparisonPoints. rewrite Ha, Hb, Hx, Hy. cbn. lia.
  - unfold fairAward, comparisonPoints. rewrite Ha, Hb, Hx, Hy. cbn. lia.
Qed.

Lemma one_sided_average_row_witness :
  ("AVERAGE"%string, player1) ∈ tableRows competitorC competitorA "333" ∧
  unfairAward player1 competitorC competitorA "333"
  = disciplinePoint player1
      (single (mkPersonalRecord
                 (Some (mkRankInfo 900 (Some 40) (Some 12) (Some 3)))
                 (Some (mkRankInfo 1100 (Some 55) (Some 15) (Some 4)))))
      (single (mkPersonalRecord
                 (Some (mkRankInfo 1000 (Some 5) None None)) None)) ∧
  fairAward player1 competitorC competitorA "333"
  = disciplinePoint player1
      (single (mkPersonalRecord
                 (Some (mkRankInfo 900 (Some 40) (Some 12) (Some 3)))
                 (Some (mkRankInfo 1100 (Some 55) (Some 15) (Some 4)))))
      (single (mkPersonalRecord
                 (Some (mkRankInfo 1000 (Some 5) None None)) None)).
Proof.
  apply (one_sided_average_row competitorC competitorA "333"
           (mkPersonalRecord
              (Some (mkRankInfo 900 (Some 40) (Some 12) (Some 3)))
              (Some (mkRankInfo 1100 (Some 55) (Some 15) (Some 4))))
           (mkPersonalRecord (Some (mkRankInfo 1000 (Some 5) None None)) None)
           (mkRankInfo 1100 (Some 55) (Some 15) (Some 4)));
    vm_compute; reflexivity.
Defined.

(** X26: Every event listed for two players whose records each hold a result
    has at least one table row and at most two. *)
Theorem tableRows_count a b e :
  (∀ k r, personal_records a !! k = Some r → is_Some (single r) ∨ is_Some (average r)) →
  (∀ k r, personal_records b !! k = Some r → is_Some (single r) ∨ is_Some (average r)) →
  e ∈ getAllEvents (Some a) (Some b) →
  (1 ≤ length (tableRows a b e) ≤ 2)%nat.
Proof.
  intros Hia Hib He.
  rewrite getAllEvents_all, elem_of_elements in He. unfold allEvents in He.
  rewrite elem_of_union, !elem_of_dom in He.
  rewrite tableRows_cases, length_app.
  assert (is_Some (personal_records a !! e ≫= single)
          ∨ is_Some (personal_records b !! e ≫= single)
          ∨ is_Some (personal_records a !! e ≫= average)
          ∨ is_Some (personal_records b !! e ≫= average)) as Hsome.
  { destruct He as [[r Hr]|[r Hr]].
    - destruct (Hia e r Hr) as [?|?]; rewrite Hr; cbn; tauto.
    - destruct (Hib e r Hr) as [?|?]; rewrite Hr; cbn; tauto. }
  repeat case_bool_decide; cbn; try lia. tauto.
Qed.

Lemma tableRows_count_witness :
  (1 ≤ length (tableRows competitorA competitorB "444") ≤ 2)%nat.
Proof.
  apply (tableRows_count competitorA competitorB "444").
  - intros k r H. unfold competitorA, onlySingle in H. cbn in H.
    apply lookup_singleton_Some in H as [_ <-]. left. by eexists.
  - intros k r H. unfold competitorB, onlySingle in H. cbn in H.
    apply lookup_singleton_Some in H as [_ <-]. left. by eexists.
  - vm_compute. right. left.
Defined.

End Table.

(** ** The winner cell *)

Section WinnerCell.

(** X27: The first name shown in a winner cell is the part of the name before
    its first space: it contains no space, and the name continues after it
    with a space or not at all. *)
Theorem firstName_prefix (name : string) :
  Forall (λ c, c ≠ " "%char) (list_ascii_of_string (firstName name)) ∧
  (∃ rest, name = (firstName name +:+ rest)%string
           ∧ (rest = ""%string ∨ ∃ tail, rest = String " " tail)).
Proof.
  induction name as [|c name [IH1 (rest & IH2 & IH3)]].
  - split; [constructor|]. exists ""%string. split; [done|by left].
  - cbn [firstName]. destruct (Ascii.eqb_spec c " ") as [->|Hc].
    + split; [constructor|].
      exists (String " " name). split; [done|]. right. by eexists.
    + split.
      * cbn. by constructor.
      * exists rest. split; [|done].
        change (String c name = String c (firstName name +:+ rest))%string.
        by rewrite <- IH2.
Qed.

End WinnerCell.
